(** * A verified model of the Redux store engine, [compose] and
      [bindActionCreators]

    The development follows the JavaScript sources:
    - [createStore] with its closure variables [currentReducer],
      [currentState], [currentListeners], [nextListeners], [isDispatching]
      and the operations [getState], [subscribe], [dispatch],
      [replaceReducer];
    - [compose];
    - [bindActionCreator] and [bindActionCreators].

    Arrays are heap objects addressed by reference, because the store keeps
    two variables that may alias the same array.  Reducers and listeners are
    caller-supplied callbacks: they are given as programs over the store's
    public operations and run by a fuel-indexed interpreter. *)

From stdpp Require Import base list strings.
From Stdlib Require Import ZArith Lia.

#[local] Set Warnings "-register-all".
#[local] Set Default Proof Using "Type".


(** ** JavaScript values and completions *)

Module Js.

(** A reference to a caller-supplied function.  Two function values are
    [===] exactly when their references are equal. *)
Definition FunRef := nat.

Inductive JsValue : Type :=
| VUndefined
| VNull
| VBoolean (b : bool)
| VNumber (n : Z)
| VString (s : string)
| VFunction (f : FunRef)
| VArray (items : list JsValue)
| VObject (props : list (string * JsValue))
| VInstance (class : string) (props : list (string * JsValue)).

(** What [throw] carries: [new Error(msg)], [new TypeError(msg)], or any
    value thrown by caller code. *)
Inductive Exn : Type :=
| Error (msg : string)
| TypeError (msg : string)
| Thrown (v : JsValue).

(** The outcome of a call: it returns a value or it throws. *)
Inductive Completion (A : Type) : Type :=
| Normal (a : A)
| Abrupt (e : Exn).
Arguments Normal {A} a.
Arguments Abrupt {A} e.

Definition typeof (v : JsValue) : string :=
  match v with
  | VUndefined => "undefined"
  | VNull => "object"
  | VBoolean _ => "boolean"
  | VNumber _ => "number"
  | VString _ => "string"
  | VFunction _ => "function"
  | VArray _ => "object"
  | VObject _ => "object"
  | VInstance _ _ => "object"
  end.

(** Property lookup in an ordered list of own properties. *)
Fixpoint lookup_prop (key : string) (props : list (string * JsValue)) : JsValue :=
  match props with
  | [] => VUndefined
  | (k, v) :: rest => if String.eqb k key then v else lookup_prop key rest
  end.

(** [value.key] for the values that can be dispatched.  An array has no
    property called [type]; primitives have none either. *)
Definition get (v : JsValue) (key : string) : JsValue :=
  match v with
  | VObject props => lookup_prop key props
  | VInstance _ props => lookup_prop key props
  | _ => VUndefined
  end.

(** [isPlainObject] is lodash's: true of objects created by an object
    literal (prototype [Object.prototype] or [null]), false of arrays,
    primitives, functions and instances of other classes. *)
Definition isPlainObject (v : JsValue) : bool :=
  match v with
  | VObject _ => true
  | _ => false
  end.

(** The double-quote character, for messages that contain it. *)
Definition dq : string := String (Ascii.ascii_of_nat 34) EmptyString.

(** A call that may read and write some state [S] and may throw. *)
Definition Eff (S A : Type) : Type := S → Completion A * S.

Definition ret {S A : Type} (a : A) : Eff S A := λ s, (Normal a, s).

Definition bind {S A B : Type} (m : Eff S A) (k : A → Eff S B) : Eff S B :=
  λ s, match m s with
       | (Normal a, s1) => k a s1
       | (Abrupt e, s1) => (Abrupt e, s1)
       end.

(** A function of the caller, applied to its argument list. *)
Definition Fn (V S : Type) : Type := list V → Eff S V.

End Js.
Export Js.

(** ** The store *)

Module StateContainer.

Definition ActionTypes_INIT : string := "@@redux/INIT".

(** The action [{type: ActionTypes.INIT}]. *)
Definition INIT : JsValue := VObject [("type", VString ActionTypes_INIT)].

(** *** Array primitives used on the listener arrays *)

(** [xs.indexOf(l)]: first index of [l], or -1. *)
Fixpoint indexOf (l : FunRef) (xs : list FunRef) : Z :=
  match xs with
  | [] => (-1)%Z
  | x :: rest =>
      if Nat.eqb x l then 0%Z
      else let i := indexOf l rest in
           if (i <? 0)%Z then (-1)%Z else (i + 1)%Z
  end.

(** [xs.splice(start, 1)]: a negative [start] counts from the end, the
    start is clamped to the array, and at most one element is deleted. *)
Definition splice1 (start : Z) (xs : list FunRef) : list FunRef :=
  let len := Z.of_nat (length xs) in
  let actualStart :=
    if (start <? 0)%Z then Z.max (len + start) 0 else Z.min start len in
  let deleteCount := Z.min 1 (len - actualStart) in
  take (Z.to_nat actualStart) xs ++ drop (Z.to_nat (actualStart + deleteCount)) xs.

(** *** Callbacks *)

(** A callback body: a tree of calls to the store's operations.  The
    continuation of a call that can throw receives its completion, which
    is a [try]/[catch] around the call; not catching is continuing with
    [Throw]. [Unsubscribe h] calls the removal closure number [h].
    [Load] and [Save] read and write the callers' own variables, which
    the store never touches. *)
Inductive Prog : Type :=
| Return (v : JsValue)
| Throw (e : Exn)
| GetState (k : JsValue → Prog)
| Subscribe (listener : JsValue) (k : Completion nat → Prog)
| Unsubscribe (h : nat) (k : Prog)
| Dispatch (action : JsValue) (k : Completion JsValue → Prog)
| ReplaceReducer (nextReducer : JsValue) (k : Completion JsValue → Prog)
| Load (k : JsValue → Prog)
| Save (v : JsValue) (k : Prog).

(** The code of the caller's functions: the body run when function [f] is
    called with the given arguments. *)
Definition Code := FunRef → list JsValue → Prog.

(** *** State *)

(** One removal closure returned by [subscribe]: the [listener] it
    captured and its own [isSubscribed] variable. *)
Record Unsubscriber := {
  listener : FunRef;
  isSubscribed : bool
}.

(** Observations kept for stating properties; no operation reads them. *)
Inductive Event : Type :=
| ReducerCalled (dispatching : bool) (state action : JsValue)
| StateAssigned (s : JsValue)
| ListenerCalled (pass : nat) (dispatching : bool) (l : FunRef).

Record Store := {
  currentReducer : JsValue;
  currentState : JsValue;
  currentListeners : nat;           (* reference into [arrays] *)
  nextListeners : nat;              (* reference into [arrays] *)
  isDispatching : bool;
  arrays : list (list FunRef);      (* the array objects *)
  unsubscribers : list Unsubscriber; (* the removal closures handed out *)
  passes : nat;                     (* notification passes started so far *)
  log : list Event;
  outside : JsValue                 (* the variables the callers keep *)
}.

Definition set_currentReducer (r : JsValue) (w : Store) : Store :=
  {| currentReducer := r; currentState := currentState w;
     currentListeners := currentListeners w; nextListeners := nextListeners w;
     isDispatching := isDispatching w; arrays := arrays w;
     unsubscribers := unsubscribers w; passes := passes w; log := log w;
     outside := outside w |}.

Definition set_currentState (s : JsValue) (w : Store) : Store :=
  {| currentReducer := currentReducer w; currentState := s;
     currentListeners := currentListeners w; nextListeners := nextListeners w;
     isDispatching := isDispatching w; arrays := arrays w;
     unsubscribers := unsubscribers w; passes := passes w; log := log w;
     outside := outside w |}.

Definition set_currentListeners (r : nat) (w : Store) : Store :=
  {| currentReducer := currentReducer w; currentState := currentState w;
     currentListeners := r; nextListeners := nextListeners w;
     isDispatching := isDispatching w; arrays := arrays w;
     unsubscribers := unsubscribers w; passes := passes w; log := log w;
     outside := outside w |}.

Definition set_nextListeners (r : nat) (w : Store) : Store :=
  {| currentReducer := currentReducer w; currentState := currentState w;
     currentListeners := currentListeners w; nextListeners := r;
     isDispatching := isDispatching w; arrays := arrays w;
     unsubscribers := unsubscribers w; passes := passes w; log := log w;
     outside := outside w |}.

Definition set_isDispatching (b : bool) (w : Store) : Store :=
  {| currentReducer := currentReducer w; currentState := currentState w;
     currentListeners := currentListeners w; nextListeners := nextListeners w;
     isDispatching := b; arrays := arrays w;
     unsubscribers := unsubscribers w; passes := passes w; log := log w;
     outside := outside w |}.

Definition set_arrays (h : list (list FunRef)) (w : Store) : Store :=
  {| currentReducer := currentReducer w; currentState := currentState w;
     currentListeners := currentListeners w; nextListeners := nextListeners w;
     isDispatching := isDispatching w; arrays := h;
     unsubscribers := unsubscribers w; passes := passes w; log := log w;
     outside := outside w |}.

Definition set_unsubscribers (u : list Unsubscriber) (w : Store) : Store :=
  {| currentReducer := currentReducer w; currentState := currentState w;
     currentListeners := currentListeners w; nextListeners := nextListeners w;
     isDispatching := isDispatching w; arrays := arrays w;
     unsubscribers := u; passes := passes w; log := log w;
     outside := outside w |}.

Definition set_passes (n : nat) (w : Store) : Store :=
  {| currentReducer := currentReducer w; currentState := currentState w;
     currentListeners := currentListeners w; nextListeners := nextListeners w;
     isDispatching := isDispatching w; arrays := arrays w;
     unsubscribers := unsubscribers w; passes := n; log := log w;
     outside := outside w |}.

Definition record (e : Event) (w : Store) : Store :=
  {| currentReducer := currentReducer w; currentState := currentState w;
     currentListeners := currentListeners w; nextListeners := nextListeners w;
     isDispatching := isDispatching w; arrays := arrays w;
     unsubscribers := unsubscribers w; passes := passes w;
     log := log w ++ [e]; outside := outside w |}.

Definition set_outside (v : JsValue) (w : Store) : Store :=
  {| currentReducer := currentReducer w; currentState := currentState w;
     currentListeners := currentListeners w; nextListeners := nextListeners w;
     isDispatching := isDispatching w; arrays := arrays w;
     unsubscribers := unsubscribers w; passes := passes w; log := log w;
     outside := v |}.

(** The contents of the array object [r]. *)
Definition array_at (r : nat) (w : Store) : list FunRef :=
  default [] (arrays w !! r).

(** The contents of [nextListeners] and of [currentListeners]. *)
Definition registry (w : Store) : list FunRef := array_at (nextListeners w) w.
Definition snapshot (w : Store) : list FunRef := array_at (currentListeners w) w.

(** *** Operations that call no callback *)

(** [nextListeners === currentListeners] compares references;
    [currentListeners.slice()] allocates a new array with the same
    elements. *)
Definition ensureCanMutateNextListeners (w : Store) : Store :=
  if Nat.eqb (nextListeners w) (currentListeners w) then
    set_nextListeners (length (arrays w))
      (set_arrays (arrays w ++ [array_at (currentListeners w) w]) w)
  else w.

Definition getState (w : Store) : JsValue := currentState w.

Definition msg_listener : string := "Expected listener to be a function.".

(** [subscribe(listener)]: the result is the number of the removal
    closure it returns. *)
Definition subscribe (l : JsValue) (w : Store) : Completion nat * Store :=
  match l with
  | VFunction f =>
      let w1 := ensureCanMutateNextListeners w in
      (* nextListeners.push(listener) *)
      let w2 := set_arrays (<[nextListeners w1 := registry w1 ++ [f]]> (arrays w1)) w1 in
      (Normal (length (unsubscribers w2)),
       set_unsubscribers
         (unsubscribers w2 ++ [{| listener := f; isSubscribed := true |}]) w2)
  | _ => (Abrupt (Error msg_listener), w)
  end.

(** Calling the removal closure number [h].  A number that names no
    closure stands for no call at all. *)
Definition unsubscribe (h : nat) (w : Store) : Store :=
  match unsubscribers w !! h with
  | None => w
  | Some u =>
      if negb (isSubscribed u) then w
      else
        let w1 := set_unsubscribers
                    (<[h := {| listener := listener u; isSubscribed := false |}]>
                       (unsubscribers w)) w in
        let w2 := ensureCanMutateNextListeners w1 in
        let index := indexOf (listener u) (registry w2) in
        set_arrays (<[nextListeners w2 := splice1 index (registry w2)]> (arrays w2)) w2
  end.

Definition msg_plain : string :=
  "Actions must be plain objects. Use custom middleware for async actions.".
Definition msg_type : string :=
  "Actions may not have an undefined " +:+ dq +:+ "type" +:+ dq +:+
  " property. Have you misspelled a constant?".
Definition msg_reducers : string := "Reducers may not dispatch actions.".
Definition msg_nextReducer : string := "Expected the nextReducer to be a function.".
Definition msg_reducer : string := "Expected the reducer to be a function.".
Definition msg_enhancer : string := "Expected the enhancer to be a function.".
Definition msg_not_a_function : string := "currentReducer is not a function".

(** The three checks at the head of [dispatch], in order: the error that
    is thrown, if any. *)
Definition dispatch_guard (action : JsValue) (w : Store) : option Exn :=
  if negb (isPlainObject action) then Some (Error msg_plain)
  else if String.eqb (typeof (get action "type")) "undefined" then Some (Error msg_type)
  else if isDispatching w then Some (Error msg_reducers)
  else None.

(** [currentState = s], once the reducer has returned [s]. *)
Definition assign_state (s : JsValue) (w : Store) : Store :=
  record (StateAssigned s) (set_currentState s w).

(** [currentListeners = nextListeners], which starts a pass. *)
Definition start_pass (w : Store) : Store :=
  set_passes (S (passes w)) (set_currentListeners (nextListeners w) w).

(** *** Running callbacks *)

Section Run.

Variable code : Code.

(** [currentReducer(currentState, action)], given how to run a body. *)
Definition call_reducer (run : Prog → Store → option (Completion JsValue * Store))
  (action : JsValue) (w : Store) : option (Completion JsValue * Store) :=
  match currentReducer w with
  | VFunction r =>
      run (code r [currentState w; action])
        (record (ReducerCalled (isDispatching w) (currentState w) action) w)
  | _ => Some (Abrupt (TypeError msg_not_a_function), w)
  end.

(** [listener()], given how to run a body. *)
Definition call_listener (run : Prog → Store → option (Completion JsValue * Store))
  (pass : nat) (l : FunRef) (w : Store) : option (Completion JsValue * Store) :=
  run (code l []) (record (ListenerCalled pass (isDispatching w) l) w).

(** [exec] runs a callback body, [dispatch] is the store's [dispatch] and
    [notify] is its [for] loop from index [i] over the array object
    [listeners], in pass number [pass].  [None] means the fuel ran out. *)
Fixpoint exec (fuel : nat) (p : Prog) (w : Store) {struct fuel}
  : option (Completion JsValue * Store) :=
  match fuel with
  | 0 => None
  | S n =>
      match p with
      | Return v => Some (Normal v, w)
      | Throw e => Some (Abrupt e, w)
      | GetState k => exec n (k (getState w)) w
      | Subscribe l k =>
          let '(r, w1) := subscribe l w in exec n (k r) w1
      | Unsubscribe h k => exec n k (unsubscribe h w)
      | Dispatch action k =>
          match dispatch n action w with
          | None => None
          | Some (r, w1) => exec n (k r) w1
          end
      | ReplaceReducer nextReducer k =>
          match nextReducer with
          | VFunction _ =>
              match dispatch n INIT (set_currentReducer nextReducer w) with
              | None => None
              | Some (Normal _, w1) => exec n (k (Normal VUndefined)) w1
              | Some (Abrupt e, w1) => exec n (k (Abrupt e)) w1
              end
          | _ => exec n (k (Abrupt (Error msg_nextReducer))) w
          end
      | Load k => exec n (k (outside w)) w
      | Save v k => exec n k (set_outside v w)
      end
  end

with dispatch (fuel : nat) (action : JsValue) (w : Store) {struct fuel}
  : option (Completion JsValue * Store) :=
  match dispatch_guard action w with
  | Some e => Some (Abrupt e, w)
  | None =>
      match fuel with
      | 0 => None
      | S n =>
          (* try { isDispatching = true; currentState = currentReducer(...) }
             finally { isDispatching = false } *)
          match call_reducer (exec n) action (set_isDispatching true w) with
          | None => None
          | Some (Abrupt e, w1) => Some (Abrupt e, set_isDispatching false w1)
          | Some (Normal s, w1) =>
              let w2 := set_isDispatching false (assign_state s w1) in
              (* const listeners = currentListeners = nextListeners *)
              let w3 := start_pass w2 in
              let listeners := currentListeners w3 in
              match notify n listeners 0 (passes w2) w3 with
              | None => None
              | Some (Abrupt e, w4) => Some (Abrupt e, w4)
              | Some (Normal _, w4) => Some (Normal action, w4)
              end
          end
      end
  end

with notify (fuel : nat) (listeners : nat) (i : nat) (pass : nat) (w : Store)
  {struct fuel} : option (Completion JsValue * Store) :=
  match fuel with
  | 0 => None
  | S n =>
      (* i < listeners.length *)
      match array_at listeners w !! i with
      | None => Some (Normal VUndefined, w)
      | Some l =>
          match call_listener (exec n) pass l w with
          | None => None
          | Some (Abrupt e, w1) => Some (Abrupt e, w1)
          | Some (Normal _, w1) => notify n listeners (S i) pass w1
          end
      end
  end.

(** [replaceReducer(nextReducer)] as the caller sees it. *)
Definition replaceReducer (fuel : nat) (nextReducer : JsValue) (w : Store)
  : option (Completion JsValue * Store) :=
  match nextReducer with
  | VFunction _ =>
      match dispatch fuel INIT (set_currentReducer nextReducer w) with
      | None => None
      | Some (Normal _, w1) => Some (Normal VUndefined, w1)
      | Some (Abrupt e, w1) => Some (Abrupt e, w1)
      end
  | _ => Some (Abrupt (Error msg_nextReducer), w)
  end.

(** What [createStore] hands back: the store it built, or the call
    [enhancer(createStore)(reducer, preloadedState)] it delegates to. *)
Inductive Created : Type :=
| StoreOf (w : Store)
| Enhanced (enhancer : FunRef) (reducer preloadedState : JsValue).

Definition initialStore (reducer preloadedState : JsValue) : Store :=
  {| currentReducer := reducer; currentState := preloadedState;
     currentListeners := 0; nextListeners := 0;
     isDispatching := false; arrays := [ [] ];
     unsubscribers := []; passes := 0; log := []; outside := VUndefined |}.

Definition createStore (fuel : nat) (reducer preloadedState enhancer : JsValue)
  : option (Completion Created) :=
  let '(preloadedState, enhancer) :=
    if String.eqb (typeof preloadedState) "function"
       && String.eqb (typeof enhancer) "undefined"
    then (VUndefined, preloadedState)
    else (preloadedState, enhancer) in
  if negb (String.eqb (typeof enhancer) "undefined") then
    match enhancer with
    | VFunction e => Some (Normal (Enhanced e reducer preloadedState))
    | _ => Some (Abrupt (Error msg_enhancer))
    end
  else
    match reducer with
    | VFunction _ =>
        match dispatch fuel INIT (initialStore reducer preloadedState) with
        | None => None
        | Some (Abrupt e, _) => Some (Abrupt e)
        | Some (Normal _, w) => Some (Normal (StoreOf w))
        end
    | _ => Some (Abrupt (Error msg_reducer))
    end.

End Run.

(** *** Counting and invariants *)

(** How many times [l] occurs in an array. *)
Definition occurrences (l : FunRef) (xs : list FunRef) : nat :=
  length (filter (λ x, x = l) xs).

(** How many removal closures for [l] have not been called yet. *)
Definition live (l : FunRef) (us : list Unsubscriber) : nat :=
  length (filter (λ u, listener u = l ∧ isSubscribed u = true) us).

(** An array object that no operation will write to any more: it is not
    the one [nextListeners] points to, or [nextListeners] still shares it
    with [currentListeners], so that the next write copies first. *)
Definition frozen (r : nat) (w : Store) : Prop :=
  r < length (arrays w) ∧
  (r ≠ nextListeners w ∨ nextListeners w = currentListeners w).

(** Both variables point to array objects, and [nextListeners] holds each
    listener once per removal closure that is still subscribed. *)
Record wf (w : Store) : Prop := {
  wf_next : nextListeners w < length (arrays w);
  wf_current : currentListeners w < length (arrays w);
  wf_live : ∀ l, occurrences l (registry w) = live l (unsubscribers w)
}.

(** The listeners called directly by pass number [p], in order. *)
Definition called_in (p : nat) (evs : list Event) : list FunRef :=
  omap (λ e, match e with
             | ListenerCalled q _ l => if Nat.eqb q p then Some l else None
             | _ => None
             end) evs.

(** The state after the assignments in [evs], starting from [s]. *)
Definition assigned (evs : list Event) (s : JsValue) : JsValue :=
  fold_left (λ s e, match e with StateAssigned s' => s' | _ => s end) evs s.

(** What each recorded event must satisfy in a run whose passes are
    numbered from [p]: a reducer sees the flag set, a listener sees it
    clear. *)
Definition ev_ok (p : nat) (e : Event) : Prop :=
  match e with
  | ReducerCalled d _ _ => d = true
  | StateAssigned _ => True
  | ListenerCalled q d _ => p ≤ q ∧ d = false
  end.

(** How a store can change while callbacks run, whatever the flag: array
    objects are only added, frozen ones keep their contents, removal
    closures are only added and only ever switched off, events are only
    appended, and [currentState] is the last state assigned. *)
Record evolves (p : nat) (w w' : Store) : Prop := {
  ev_arrays : length (arrays w) ≤ length (arrays w');
  ev_frozen : ∀ r, frozen r w → frozen r w' ∧ array_at r w' = array_at r w;
  ev_unsub : ∀ h u, unsubscribers w !! h = Some u →
      ∃ u', unsubscribers w' !! h = Some u' ∧ listener u' = listener u ∧
            (isSubscribed u' = true → isSubscribed u = true);
  ev_passes : passes w ≤ passes w';
  ev_log : ∃ evs, log w' = log w ++ evs ∧ Forall (ev_ok p) evs ∧
      currentState w' = assigned evs (currentState w);
  ev_wf : wf w → wf w'
}.

(** What a complete call adds to that: the flag is back to what it was,
    and a call made while the flag is set records nothing and starts no
    pass. *)
Definition ext (p : nat) (w w' : Store) : Prop :=
  evolves p w w' ∧
  isDispatching w' = isDispatching w ∧
  (isDispatching w = true → log w' = log w ∧ passes w' = passes w).

(** *** Vocabulary of the specification *)

(** The two errors for a malformed action, and the one for a dispatch
    made while a reducer runs. *)
Definition InvalidActionError (e : Exn) : Prop :=
  e = Error msg_plain ∨ e = Error msg_type.

Definition ReentrancyError : Exn := Error msg_reducers.

(** An action that passes the first two checks of [dispatch]. *)
Definition valid_action (a : JsValue) : Prop :=
  isPlainObject a = true ∧ typeof (get a "type") ≠ "undefined".

(** Function [r] is a pure reducer computing [f]. *)
Definition pure_reducer (code : Code) (r : FunRef)
  (f : JsValue → JsValue → JsValue) : Prop :=
  ∀ s a, code r [s; a] = Return (f s a).

(** Listener [l] returns without calling the store. *)
Definition quiet (code : Code) (l : FunRef) : Prop :=
  ∃ v, code l [] = Return v.

(** Dispatching a list of actions in order, each call returning. *)
Fixpoint dispatch_all (code : Code) (fuel : nat) (actions : list JsValue)
  (w : Store) : option Store :=
  match actions with
  | [] => Some w
  | a :: rest =>
      match dispatch code fuel a w with
      | Some (Normal _, w1) => dispatch_all code fuel rest w1
      | _ => None
      end
  end.

(** Calling [subscribe(l)] [n] times. *)
Fixpoint subscribe_times (n : nat) (l : JsValue) (w : Store) : Store :=
  match n with
  | 0 => w
  | S m => subscribe_times m l (subscribe l w).2
  end.

(** The store after a dispatch whose reducer returned [s] and whose
    listeners [ls] all returned without calling the store. *)
Definition quietly_dispatched (s action : JsValue) (ls : list FunRef)
  (w : Store) : Store :=
  fold_left (λ w1 l, record (ListenerCalled (passes w) false l) w1) ls
    (start_pass (set_isDispatching false (assign_state s
       (record (ReducerCalled true (currentState w) action)
          (set_isDispatching true w))))).

End StateContainer.

(** ** [compose] *)

Module Composer.

Section Compose.

Variables V S : Type.
Variable undefined : V.

(** [arg => arg]: the first argument, [undefined] when there is none. *)
Definition identity : Fn V S := λ args, ret (hd undefined args).

(** [(a, b) => (...args) => a(b(...args))] *)
Definition step (a b : Fn V S) : Fn V S :=
  λ args, bind (b args) (λ x, a [x]).

(** [funcs.reduce(f)] without an initial value, on a non-empty array. *)
Definition reduce (f : Fn V S → Fn V S → Fn V S) (first : Fn V S)
  (rest : list (Fn V S)) : Fn V S :=
  fold_left f rest first.

Definition compose (funcs : list (Fn V S)) : Fn V S :=
  match funcs with
  | [] => identity
  | [f] => f
  | f :: rest => reduce step f rest
  end.

(** The specification's reading of [compose(f, g, h)(...args)]: the
    rightmost function gets the arguments, every other one gets the
    single value returned by the function to its right. *)
Fixpoint right_to_left (funcs : list (Fn V S)) : Fn V S :=
  match funcs with
  | [] => identity
  | [f] => f
  | f :: rest => λ args, bind (right_to_left rest args) (λ x, f [x])
  end.

End Compose.

Arguments identity {V S} undefined args.
Arguments step {V S} a b args.
Arguments reduce {V S} f first rest.
Arguments compose {V S} undefined funcs.
Arguments right_to_left {V S} undefined funcs.

End Composer.

(** ** [bindActionCreators] *)

Module ActionBinder.

Section Bind.

Variables V S : Type.

(** What can be passed as [actionCreators], and what comes back: an
    object is the ordered list of its own enumerable properties (an array
    is the object whose keys are its indices).  [Object props] has the
    prototype every object literal has, [ObjectOver proto props] is an
    object whose prototype has been replaced by [proto]. *)
Inductive Value : Type :=
| Undefined
| Null
| Boolean (b : bool)
| Number (n : Z)
| Text (s : string)
| Function (f : Fn V S)
| Object (props : list (string * Value))
| ObjectOver (proto : Value) (props : list (string * Value)).

Definition typeof (v : Value) : string :=
  match v with
  | Undefined => "undefined"
  | Null => "object"
  | Boolean _ => "boolean"
  | Number _ => "number"
  | Text _ => "string"
  | Function _ => "function"
  | Object _ => "object"
  | ObjectOver _ _ => "object"
  end.

Definition is_null (v : Value) : bool :=
  match v with Null => true | _ => false end.

Definition callable (v : Value) : bool :=
  String.eqb (typeof v) "function".

(** [obj[key]], for an own key of [obj]. *)
Fixpoint lookup_key (key : string) (props : list (string * Value)) : Value :=
  match props with
  | [] => Undefined
  | (k, v) :: rest => if String.eqb k key then v else lookup_key key rest
  end.

(** [Object.keys(obj)] *)
Definition Object_keys (props : list (string * Value)) : list string :=
  map fst props.

Definition has_own (key : string) (props : list (string * Value)) : bool :=
  existsb (String.eqb key) (Object_keys props).

(** Writing an own property: overwrite in place, or add at the end. *)
Fixpoint set_own (key : string) (v : Value) (props : list (string * Value))
  : list (string * Value) :=
  match props with
  | [] => [(key, v)]
  | (k, x) :: rest =>
      if String.eqb k key then (k, v) :: rest else (k, x) :: set_own key v rest
  end.

(** The object [boundActionCreators] while the loop fills it: it starts
    as [{}]; [prototype] is [None] as long as its prototype is the one of
    every object literal. *)
Record Building : Type := {
  prototype : option (Fn V S);
  own : list (string * Value)
}.

Definition empty_object : Building := {| prototype := None; own := [] |}.

(** The keys a function object, or the prototype of all functions, holds
    as read-only properties or as accessors that refuse a write. *)
Definition function_keys : list string :=
  ["length"; "name"; "arguments"; "caller"].

(** [obj[key] = wrapper], for a function [wrapper].  An own property is
    overwritten.  Otherwise the key [__proto__] is found on the prototype
    of object literals, as an accessor: its setter makes [wrapper] the
    prototype of [obj] and no own property is created.  Any other key
    becomes an own property; once the prototype is a function, a write to
    one of [function_keys] is refused by that prototype, with an outcome
    that depends on the mode the code runs in: such a write is left out of
    this model (the answer is [None]). *)
Definition assign (key : string) (wrapper : Fn V S) (obj : Building)
  : option Building :=
  if has_own key (own obj) then
    Some {| prototype := prototype obj;
            own := set_own key (Function wrapper) (own obj) |}
  else if String.eqb key "__proto__" then
    Some {| prototype := Some wrapper; own := own obj |}
  else
    match prototype obj with
    | Some _ =>
        if existsb (String.eqb key) function_keys then None
        else Some {| prototype := prototype obj;
                     own := set_own key (Function wrapper) (own obj) |}
    | None =>
        Some {| prototype := None;
                own := set_own key (Function wrapper) (own obj) |}
    end.

(** The object as a value. *)
Definition value_of (obj : Building) : Value :=
  match prototype obj with
  | None => Object (own obj)
  | Some proto => ObjectOver (Function proto) (own obj)
  end.

Definition bindActionCreator (actionCreator dispatch : Fn V S) : Fn V S :=
  λ args, bind (actionCreator args) (λ action, dispatch [action]).

Definition msg_expected (actionCreators : Value) : string :=
  "bindActionCreators expected an object or a function, instead received " +:+
  (if is_null actionCreators then "null" else typeof actionCreators) +:+
  ". Did you write " +:+ dq +:+ "import ActionCreators from" +:+ dq +:+
  " instead of " +:+ dq +:+ "import * as ActionCreators from" +:+ dq +:+ "?".

(** One turn of the [for] loop over the keys. *)
Definition bind_key (actionCreators : list (string * Value)) (dispatch : Fn V S)
  (boundActionCreators : option Building) (key : string) : option Building :=
  match boundActionCreators with
  | None => None
  | Some obj =>
      match lookup_key key actionCreators with
      | Function actionCreator =>
          assign key (bindActionCreator actionCreator dispatch) obj
      | _ => Some obj
      end
  end.

(** The own properties [Object.keys] and [obj[key]] go through. *)
Definition own_props (v : Value) : list (string * Value) :=
  match v with
  | Object props => props
  | ObjectOver _ props => props
  | _ => []
  end.

Definition bindActionCreators (actionCreators : Value) (dispatch : Fn V S)
  : option (Completion Value) :=
  match actionCreators with
  | Function f => Some (Normal (Function (bindActionCreator f dispatch)))
  | _ =>
      if negb (String.eqb (typeof actionCreators) "object") || is_null actionCreators
      then Some (Abrupt (Error (msg_expected actionCreators)))
      else
        let keys := Object_keys (own_props actionCreators) in
        match fold_left (bind_key (own_props actionCreators) dispatch) keys
                (Some empty_object) with
        | Some boundActionCreators => Some (Normal (value_of boundActionCreators))
        | None => None
        end
  end.

(** The mapping the specification asks for, over the keys [keys]: each
    key whose value is a function, with that function bound. *)
Definition bound_of (props : list (string * Value)) (dispatch : Fn V S)
  (keys : list string) : list (string * Value) :=
  omap (λ key, match lookup_key key props with
               | Function f => Some (key, Function (bindActionCreator f dispatch))
               | _ => None
               end) keys.

End Bind.

Arguments Undefined {V S}.
Arguments Null {V S}.
Arguments Boolean {V S} b.
Arguments Number {V S} n.
Arguments Text {V S} s.
Arguments Function {V S} f.
Arguments Object {V S} props.
Arguments ObjectOver {V S} proto props.
Arguments typeof {V S} v.
Arguments is_null {V S} v.
Arguments callable {V S} v.
Arguments lookup_key {V S} key props.
Arguments Object_keys {V S} props.
Arguments has_own {V S} key props.
Arguments set_own {V S} key v props.
Arguments prototype {V S} b.
Arguments own {V S} b.
Arguments empty_object {V S}.
Arguments assign {V S} key wrapper obj.
Arguments value_of {V S} obj.
Arguments bindActionCreator {V S} actionCreator dispatch args.
Arguments msg_expected {V S} actionCreators.
Arguments bind_key {V S} actionCreators dispatch boundActionCreators key.
Arguments own_props {V S} v.
Arguments bindActionCreators {V S} actionCreators dispatch.
Arguments bound_of {V S} props dispatch keys.

(** A mapping with one action creator under [a] and a number under [b]. *)
Definition sample_creator : Fn nat unit := λ args, ret (length args).
Definition sample_dispatch : Fn nat unit := λ args, ret (hd 0 args).
Definition sample_map : Value nat unit :=
  Object [("a", Function sample_creator); ("b", Number 1)].

End ActionBinder.

(** ** Sample callers *)

Module Samples.
Import StateContainer.

Definition INCREMENT : JsValue := VObject [("type", VString "INCREMENT")].

(** The counting reducer: the number after [s], or 0 when [s] is not a
    number. *)
Definition count (s action : JsValue) : JsValue :=
  match s with
  | VNumber n => VNumber (n + 1)
  | _ => VNumber 0
  end.

Definition is_increment (action : JsValue) : bool :=
  match get action "type" with
  | VString t => String.eqb t "INCREMENT"
  | _ => false
  end.

(** Functions 0, 4, 5 and 6 are reducers, the others are listeners.
    Reducer 4 dispatches from inside and catches the error, reducer 5
    lets it through, reducer 6 throws. *)
Definition sample_code : Code := λ f args,
  match f with
  | 0 => match args with
         | [s; action] => Return (count s action)
         | _ => Return VUndefined
         end
  | 1 => Return VUndefined
  | 2 => Unsubscribe 0 (Return VUndefined)
  | 3 => Throw (Error "listener failed")
  | 4 => match args with
         | [s; action] =>
             if is_increment action then
               Dispatch INCREMENT
                 (λ r, match r with
                       | Abrupt _ => Return (VNumber 7)
                       | Normal v => Return v
                       end)
             else Return (VNumber 0)
         | _ => Return VUndefined
         end
  | 5 => match args with
         | [s; action] =>
             if is_increment action then
               Dispatch INCREMENT
                 (λ r, match r with
                       | Abrupt e => Throw e
                       | Normal v => Return v
                       end)
             else Return (VNumber 0)
         | _ => Return VUndefined
         end
  | 6 => match args with
         | [s; action] =>
             if is_increment action then Throw (Error "reducer failed")
             else Return (VNumber 0)
         | _ => Return VUndefined
         end
  | _ => GetState
           (λ s, match s with
                 | VNumber 1 => Dispatch INCREMENT (λ _, Return VUndefined)
                 | _ => Return VUndefined
                 end)
  end.

(** The store [createStore(reducer)] returns for [sample_code]. *)
Definition store_with (reducer : FunRef) : Store :=
  match createStore sample_code 5 (VFunction reducer) VUndefined VUndefined with
  | Some (Normal (StoreOf w)) => w
  | _ => initialStore (VFunction reducer) VUndefined
  end.

(** ... and after subscribing the given listeners in order. *)
Definition subscribed (listeners : list FunRef) (w : Store) : Store :=
  fold_left (λ w1 l, (subscribe (VFunction l) w1).2) listeners w.

End Samples.

(** ** Listeners that count their calls *)

Module Counting.
Import StateContainer.

(** The number after [v]; what is not a number yet counts as 0. *)
Definition bump (v : JsValue) : JsValue :=
  match v with
  | VNumber n => VNumber (n + 1)
  | _ => VNumber 1
  end.

(** The body of a listener that adds one to a variable of its caller:
    [() => { calls = calls + 1 }]. *)
Definition counter : Prog :=
  Load (λ v, Save (bump v) (Return VUndefined)).

Definition counts (code : Code) (l : FunRef) : Prop :=
  code l [] = counter.

(** The store after the call of listener [l] in pass [p], where [l]
    either is the counting listener [c] or returns at once. *)
Definition after_call (c : FunRef) (p : nat) (w : Store) (l : FunRef) : Store :=
  let w1 := record (ListenerCalled p false l) w in
  if Nat.eqb l c then set_outside (bump (outside w1)) w1 else w1.

(** The store after a dispatch whose reducer returned [s] and whose pass
    called the listeners [ls]. *)
Definition counted_pass (c : FunRef) (s action : JsValue) (ls : list FunRef)
  (w : Store) : Store :=
  fold_left (after_call c (passes w)) ls
    (start_pass (set_isDispatching false (assign_state s
       (record (ReducerCalled true (currentState w) action)
          (set_isDispatching true w))))).

(** [Samples.sample_code] with function 10 as a counting listener. *)
Definition counting_code : Code := λ f args,
  match f with
  | 10 => counter
  | _ => Samples.sample_code f args
  end.

End Counting.

(** ** The observable adapter *)

Module Observable.
Import StateContainer.

(** The value of a condition: [undefined], [null], [false], [0] and the
    empty string count as false. *)
Definition truthy (v : JsValue) : bool :=
  match v with
  | VUndefined => false
  | VNull => false
  | VBoolean b => b
  | VNumber n => negb (n =? 0)%Z
  | VString s => negb (String.eqb s "")
  | _ => true
  end.

Definition msg_observer : string := "Expected the observer to be an object.".
Definition msg_next_of_null : string := "Cannot read property 'next' of null".
Definition msg_next_not_a_function : string := "observer.next is not a function".

(** Running [p] and then [k] on what it returns; a throw in [p] goes
    through. *)
Fixpoint andThen (p : Prog) (k : JsValue → Prog) : Prog :=
  match p with
  | Return v => k v
  | Throw e => Throw e
  | GetState c => GetState (λ s, andThen (c s) k)
  | Subscribe l c => Subscribe l (λ r, andThen (c r) k)
  | Unsubscribe h c => Unsubscribe h (andThen c k)
  | Dispatch a c => Dispatch a (λ r, andThen (c r) k)
  | ReplaceReducer r c => ReplaceReducer r (λ x, andThen (c x) k)
  | Load c => Load (λ v, andThen (c v) k)
  | Save v c => Save v (andThen c k)
  end.

(** The body of [observeState]: [if (observer.next) observer.next(getState())].
    Reading a property of [null] throws, and so does calling a value that
    is not a function. *)
Definition observeState (code : Code) (observer : JsValue) : Prog :=
  match observer with
  | VNull => Throw (TypeError msg_next_of_null)
  | _ =>
      if truthy (get observer "next") then
        GetState (λ s,
          match get observer "next" with
          | VFunction next => andThen (code next [s]) (λ _, Return VUndefined)
          | _ => Throw (TypeError msg_next_not_a_function)
          end)
      else Return VUndefined
  end.

(** [observable().subscribe(observer)].  [o] is the reference of the
    [observeState] closure this call creates; the result is the number of
    the removal closure in the object it returns. *)
Definition observable_subscribe (code : Code) (fuel : nat) (o : FunRef)
  (observer : JsValue) (w : Store) : option (Completion nat * Store) :=
  if negb (String.eqb (typeof observer) "object") then
    Some (Abrupt (TypeError msg_observer), w)
  else
    (* observeState() *)
    match exec code fuel (observeState code observer) w with
    | None => None
    | Some (Abrupt e, w1) => Some (Abrupt e, w1)
    | Some (Normal _, w1) =>
        (* const unsubscribe = outerSubscribe(observeState) *)
        Some (subscribe (VFunction o) w1)
    end.

(** The store after the call of listener [l] in pass [p], where [l]
    either returns at once or is the closure [o] of an observer whose
    [next] saves its argument. *)
Definition after_listener (o : FunRef) (p : nat) (w : Store) (l : FunRef) : Store :=
  let w1 := record (ListenerCalled p false l) w in
  if Nat.eqb l o then set_outside (currentState w1) w1 else w1.

(** An observer whose [next] is function 8, which saves its argument;
    function 9 is its [observeState] closure. *)
Definition recorder : JsValue := VObject [("next", VFunction 8)].

Definition recorder_base : Code := λ f args,
  match f with
  | 8 => match args with
         | [s] => Save s (Return VUndefined)
         | _ => Return VUndefined
         end
  | _ => Samples.sample_code f args
  end.

Definition recorder_code : Code := λ f args,
  match f with
  | 9 => observeState recorder_base recorder
  | _ => recorder_base f args
  end.

End Observable.

(** * Properties *)

(** ** [compose] *)

Module ComposerSpec.
Import Composer.

Section Facts.

Context {V S : Type} (undefined : V).

Lemma bind_assoc {A B C : Type} (m : Eff S A) (f : A → Eff S B) (g : B → Eff S C) s :
  bind (bind m f) g s = bind m (λ a, bind (f a) g) s.
Proof. unfold bind. destruct (m s) as [[a|e] s1]; reflexivity. Qed.

(** The left fold of [step] over the remaining functions is the call
    chain read from the right. *)
Lemma reduce_step_chain (rest : list (Fn V S)) :
  ∀ (a : Fn V S) args s, rest ≠ [] →
    reduce step a rest args s =
    bind (right_to_left undefined rest args) (λ x, a [x]) s.
Proof.
  induction rest as [|b rest IH]; intros a args s Hne; [done|].
  unfold reduce in *. cbn [fold_left].
  destruct rest as [|c rest].
  - reflexivity.
  - rewrite IH by done.
    change (right_to_left undefined (b :: c :: rest) args)
      with (bind (right_to_left undefined (c :: rest) args) (λ x, b [x])).
    rewrite bind_assoc. reflexivity.
Qed.

(** C9. [compose()] is the identity on its argument, [compose(f)] is [f],
    [compose(f, g, h)(x, y)] is [f(g(h(x, y)))], and in general the
    composite calls the functions from right to left, the rightmost one on
    the argument list and every other one on the single value returned to
    its right.  [compose] itself is a pure function of [funcs]. *)
Theorem compose_right_to_left :
  (∀ (x : V) (s : S), compose undefined [] [x] s = (Normal x, s)) ∧
  (∀ f : Fn V S, compose undefined [f] = f) ∧
  (∀ (f g h : Fn V S) (x y : V) (s : S),
      compose undefined [f; g; h] [x; y] s =
      bind (h [x; y]) (λ v, bind (g [v]) (λ u, f [u])) s) ∧
  (∀ (funcs : list (Fn V S)) (args : list V) (s : S),
      compose undefined funcs args s = right_to_left undefined funcs args s).
Proof.
  repeat split; try reflexivity.
  intros funcs args s. destruct funcs as [|f [|g rest]]; try reflexivity.
  unfold compose. rewrite reduce_step_chain by done. reflexivity.
Qed.

End Facts.

End ComposerSpec.

(** ** [bindActionCreators] *)

Module ActionBinderSpec.
Import ActionBinder.

Section Facts.

Context {V S : Type}.

#[local] Abbreviation Value := (Value V S).

Lemma has_own_spec key (props : list (string * Value)) :
  has_own key props = true ↔ key ∈ Object_keys props.
Proof.
  unfold has_own. rewrite existsb_exists. split.
  - intros (k & Hin & Heq). apply String.eqb_eq in Heq as ->.
    by apply list_elem_of_In.
  - intros Hin. exists key. split; [by apply list_elem_of_In|].
    apply String.eqb_refl.
Qed.

Lemma has_own_fresh key (props : list (string * Value)) :
  key ∉ Object_keys props → has_own key props = false.
Proof.
  intros Hk. destruct (has_own key props) eqn:H; [|done].
  by apply has_own_spec in H.
Qed.

Lemma set_own_fresh (key : string) (v : Value) (acc : list (string * Value)) :
  key ∉ Object_keys acc → set_own key v acc = acc ++ [(key, v)].
Proof.
  induction acc as [|[k x] acc IH]; intros Hk; [reflexivity|].
  cbn [set_own]. destruct (String.eqb_spec k key) as [->|Hne].
  - exfalso. apply Hk. cbn. left.
  - cbn. f_equal. apply IH. intros Hin. apply Hk. cbn. by right.
Qed.

Lemma set_own_keys (key : string) (v : Value) (acc : list (string * Value)) :
  key ∈ Object_keys acc → Object_keys (set_own key v acc) = Object_keys acc.
Proof.
  induction acc as [|[k x] acc IH]; intros Hk; [by apply elem_of_nil in Hk|].
  cbn [set_own]. destruct (String.eqb_spec k key) as [->|Hne]; [reflexivity|].
  cbn. f_equal. apply IH. cbn in Hk. apply elem_of_cons in Hk as [->|Hk]; done.
Qed.

(** A write of a fresh key other than [__proto__], which the prototype
    does not refuse, adds the key at the end. *)
Lemma assign_fresh key (wrapper : Fn V S) (obj : Building V S) :
  key ∉ Object_keys (own obj) → key ≠ "__proto__" →
  (prototype obj ≠ None → key ∉ function_keys) →
  assign key wrapper obj =
  Some {| prototype := prototype obj;
          own := own obj ++ [(key, Function wrapper)] |}.
Proof.
  intros Hk Hp Hf. unfold assign. rewrite has_own_fresh by done.
  apply String.eqb_neq in Hp. rewrite Hp. rewrite set_own_fresh by done.
  destruct (prototype obj) as [p|]; [|reflexivity].
  destruct (existsb _ function_keys) eqn:Hex; [|reflexivity].
  exfalso. apply Hf; [done|]. apply existsb_exists in Hex as (k & Hin & Heq).
  apply String.eqb_eq in Heq as ->. by apply list_elem_of_In.
Qed.

Lemma bound_of_cons props (d : Fn V S) key keys :
  bound_of props d (key :: keys) =
  match lookup_key key props with
  | Function f => (key, Function (bindActionCreator f d)) :: bound_of props d keys
  | _ => bound_of props d keys
  end.
Proof. unfold bound_of. cbn. by destruct (lookup_key key props). Qed.

Lemma bound_of_app props (d : Fn V S) keys1 keys2 :
  bound_of props d (keys1 ++ keys2) = bound_of props d keys1 ++ bound_of props d keys2.
Proof.
  induction keys1 as [|key keys1 IH]; [reflexivity|].
  cbn [app]. rewrite !bound_of_cons, IH. by destruct (lookup_key key props).
Qed.

(** The loop over distinct keys, none of them [__proto__], builds exactly
    [bound_of]. *)
Lemma fold_bind_key props (d : Fn V S) (keys : list string) :
  ∀ obj, NoDup keys → "__proto__" ∉ keys →
    (∀ k, k ∈ keys → k ∉ Object_keys (own obj)) →
    (prototype obj ≠ None → ∀ k, k ∈ keys → k ∉ function_keys) →
    fold_left (bind_key props d) keys (Some obj) =
    Some {| prototype := prototype obj;
            own := own obj ++ bound_of props d keys |}.
Proof.
  induction keys as [|key keys IH]; intros obj Hnd Hp Hfresh Hf.
  - cbn. rewrite app_nil_r. by destruct obj.
  - apply NoDup_cons in Hnd as [Hnotin Hnd].
    apply not_elem_of_cons in Hp as [Hp1 Hp2].
    cbn [fold_left]. rewrite bound_of_cons. unfold bind_key at 2.
    destruct (lookup_key key props) eqn:Hl;
      try (apply IH; [done|done| |];
           [intros k Hk; apply Hfresh; by right
           |intros Hn k Hk; apply Hf; [done|by right]]).
    rewrite assign_fresh;
      [|apply Hfresh; left|done|intros Hn; apply Hf; [done|left]].
    rewrite IH; [cbn; by rewrite <- app_assoc|done|done| |].
    + intros k Hk. cbn. unfold Object_keys. rewrite map_app. cbn.
      intros Hin. apply elem_of_app in Hin as [Hin|Hin].
      * eapply Hfresh; [by right|exact Hin].
      * apply list_elem_of_singleton in Hin. subst. done.
    + cbn. intros Hn k Hk. apply Hf; [done|by right].
Qed.

Lemma keys_bound_of props (d : Fn V S) (keys : list string) :
  Object_keys (bound_of props d keys) =
  List.filter (λ key, callable (lookup_key key props)) keys.
Proof.
  induction keys as [|key keys IH]; [reflexivity|].
  rewrite bound_of_cons. cbn [List.filter]. unfold Object_keys in *.
  destruct (lookup_key key props); cbn; rewrite ?IH; reflexivity.
Qed.

Lemma lookup_bound_of props (d : Fn V S) (keys : list string) key f :
  key ∈ keys → lookup_key key props = Function f →
  lookup_key key (bound_of props d keys) = Function (bindActionCreator f d).
Proof.
  intros Hin Hf. induction keys as [|k keys IH]; [by apply elem_of_nil in Hin|].
  rewrite bound_of_cons.
  destruct (String.eqb_spec k key) as [->|Hne].
  - rewrite Hf. cbn. by rewrite String.eqb_refl.
  - apply elem_of_cons in Hin as [->|Hin]; [done|].
    destruct (lookup_key k props); auto.
    cbn. destruct (String.eqb_spec k key); [done|]. auto.
Qed.

Lemma lookup_key_defined key (props : list (string * Value)) :
  lookup_key key props ≠ Undefined → key ∈ Object_keys props.
Proof.
  induction props as [|[k v] props IH]; [done|].
  cbn. destruct (String.eqb_spec k key) as [->|Hne]; intros H.
  - left.
  - right. by apply IH.
Qed.

Lemma bindActionCreators_object (props : list (string * Value)) (d : Fn V S) :
  NoDup (Object_keys props) → "__proto__" ∉ Object_keys props →
  bindActionCreators (Object props) d =
  Some (Normal (Object (bound_of props d (Object_keys props)))).
Proof.
  intros Hnd Hp. cbn. rewrite fold_bind_key; try done.
  intros k _ Hin. by apply elem_of_nil in Hin.
Qed.

(** A callable [actionCreators] gives the wrapper that calls it, hands
    its result to [dispatch] once, and returns what [dispatch] returns.  A
    value that is neither callable nor a non-null object is refused.  An
    object with no own key [__proto__] gives a new object whose keys are
    the keys with a callable value, each holding the bound wrapper; a key
    with another value is not in the result. *)
Theorem bindActionCreators_keeps_callable_keys
    (actionCreators : Value) (dispatch : Fn V S) :
  (∀ m, actionCreators = Function m →
     bindActionCreators actionCreators dispatch =
       Some (Normal (Function (bindActionCreator m dispatch))) ∧
     ∀ args s, bindActionCreator m dispatch args s =
       match m args s with
       | (Normal action, s1) => dispatch [action] s1
       | (Abrupt e, s1) => (Abrupt e, s1)
       end) ∧
  (callable actionCreators = false →
   typeof actionCreators ≠ "object" ∨ actionCreators = Null →
     bindActionCreators actionCreators dispatch =
       Some (Abrupt (Error (msg_expected actionCreators)))) ∧
  (∀ props, actionCreators = Object props → NoDup (Object_keys props) →
     "__proto__" ∉ Object_keys props →
     ∃ bound,
       bindActionCreators actionCreators dispatch = Some (Normal (Object bound)) ∧
       Object_keys bound =
         List.filter (λ key, callable (lookup_key key props)) (Object_keys props) ∧
       ∀ key, match lookup_key key props with
              | Function f =>
                  lookup_key key bound = Function (bindActionCreator f dispatch)
              | _ => key ∉ Object_keys bound
              end).
Proof.
  split; [|split].
  - intros m ->. split; reflexivity.
  - intros Hc [Ht| ->]; [|reflexivity].
    destruct actionCreators; try reflexivity; try done.
  - intros props -> Hnd Hp. exists (bound_of props dispatch (Object_keys props)).
    split; [|split].
    + by apply bindActionCreators_object.
    + apply keys_bound_of.
    + intros key. destruct (lookup_key key props) eqn:Hl;
        try (rewrite keys_bound_of; intros Hin;
             apply list_elem_of_In, filter_In in Hin as [_ Hin];
             rewrite Hl in Hin; done).
      apply lookup_bound_of; [|done].
      apply lookup_key_defined. by rewrite Hl.
Qed.

(** C8 fails on the code at an object with an own key [__proto__] whose
    value is callable.  The assignment [boundActionCreators[key] = ...]
    of that key runs the setter every object literal inherits: the bound
    wrapper becomes the prototype of the result and the result gets no
    own key [__proto__], so that this key, whose value is callable, is
    not in the output mapping.  The other callable keys are bound as
    usual. *)
Theorem bindActionCreators_loses_own_proto_key
    (props : list (string * Value)) (d : Fn V S) f (pre post : list string) :
  Object_keys props = pre ++ "__proto__" :: post →
  NoDup (Object_keys props) →
  lookup_key "__proto__" props = Function f →
  (∀ k, k ∈ post → k ∉ function_keys) →
  callable (lookup_key "__proto__" props) = true ∧
  bindActionCreators (Object props) d =
    Some (Normal (ObjectOver (Function (bindActionCreator f d))
                    (bound_of props d (pre ++ post)))) ∧
  "__proto__" ∉ Object_keys (bound_of props d (pre ++ post)).
Proof.
  intros Hk Hnd Hf Hpost. rewrite Hk in Hnd.
  apply NoDup_app in Hnd as (Hpre & Hdisj & Hnd).
  apply NoDup_cons in Hnd as [Hp Hnd].
  split; [by rewrite Hf|]. split.
  - change (bindActionCreators (Object props) d)
      with (match fold_left (bind_key props d) (Object_keys props)
                    (Some empty_object) with
            | Some b => Some (Normal (value_of b))
            | None => None
            end).
    rewrite Hk, fold_left_app. cbn [fold_left].
    rewrite fold_bind_key; try done; cycle 1.
    { intros Hin. apply (Hdisj _ Hin). left. }
    { intros k _ Hin. by apply elem_of_nil in Hin. }
    unfold bind_key at 2. rewrite Hf. unfold assign, empty_object.
    cbn [own prototype app].
    rewrite has_own_fresh; cycle 1.
    { rewrite keys_bound_of. intros Hin.
      apply list_elem_of_In, filter_In in Hin as [Hin _].
      apply list_elem_of_In in Hin. apply (Hdisj _ Hin). left. }
    rewrite String.eqb_refl.
    rewrite fold_bind_key; try done.
    + cbn [own prototype value_of]. by rewrite bound_of_app.
    + cbn [own]. intros k Hin. rewrite keys_bound_of. intros Hin'.
      apply list_elem_of_In, filter_In in Hin' as [Hin' _].
      apply list_elem_of_In in Hin'. apply (Hdisj _ Hin'). by right.
  - rewrite keys_bound_of. intros Hin.
    apply list_elem_of_In, filter_In in Hin as [Hin _].
    apply list_elem_of_In, elem_of_app in Hin as [Hin|Hin].
    + apply (Hdisj _ Hin). left.
    + done.
Qed.

End Facts.

Lemma bindActionCreators_keeps_callable_keys_witness :
  (∃ bound,
     bindActionCreators sample_map sample_dispatch = Some (Normal (Object bound)) ∧
     Object_keys bound = ["a"]) ∧
  bindActionCreators (Text "x") sample_dispatch =
    Some (Abrupt (Error (msg_expected (Text "x" : Value nat unit)))).
Proof.
  destruct (bindActionCreators_keeps_callable_keys sample_map sample_dispatch)
    as (_ & _ & Hobj).
  destruct (Hobj _ eq_refl) as (bound & Hb & Hk & _).
  { apply (bool_decide_unpack _). vm_compute. exact I. }
  { apply (bool_decide_unpack _). vm_compute. exact I. }
  split.
  - exists bound. split; [exact Hb|]. rewrite Hk. reflexivity.
  - destruct (bindActionCreators_keeps_callable_keys
                (Text "x" : Value nat unit) sample_dispatch) as (_ & Herr & _).
    apply Herr; [reflexivity|]. left. cbn. discriminate.
Defined.

(** The object with the own keys [__proto__] and [a], both holding an
    action creator: the result has the one own key [a]. *)
Lemma bindActionCreators_loses_own_proto_key_witness :
  bindActionCreators
    (Object [("__proto__", Function sample_creator); ("a", Function sample_creator)])
    sample_dispatch =
  Some (Normal
          (ObjectOver (Function (bindActionCreator sample_creator sample_dispatch))
             [("a", Function (bindActionCreator sample_creator sample_dispatch))])).
Proof.
  refine (proj1 (proj2 (bindActionCreators_loses_own_proto_key
            [("__proto__", Function sample_creator); ("a", Function sample_creator)]
            sample_dispatch sample_creator [] ["a"] eq_refl _ eq_refl _))).
  - apply (bool_decide_unpack _). vm_compute. exact I.
  - intros k Hk. apply list_elem_of_singleton in Hk as ->.
    apply (bool_decide_unpack _). vm_compute. exact I.
Defined.

End ActionBinderSpec.

(** ** The store *)

Module StateContainerSpec.
Import StateContainer.

(** Reading a field of an updated store. *)
Ltac simpl_store :=
  cbn [currentReducer currentState currentListeners nextListeners
       isDispatching arrays unsubscribers passes log
       set_currentReducer set_currentState set_currentListeners
       set_nextListeners set_isDispatching set_arrays set_unsubscribers
       set_passes record set_outside outside fst snd] in *.

(** *** Arrays and counting *)

Lemma count_delete {A : Type} (P : A → Prop) `{∀ x, Decision (P x)}
    (xs : list A) (i : nat) (x : A) :
  xs !! i = Some x →
  length (filter P xs) =
  length (filter P (delete i xs)) + (if decide (P x) then 1 else 0).
Proof.
  revert i. induction xs as [|y xs IH]; intros [|i] Hi; simplify_eq/=.
  - rewrite filter_cons. destruct (decide (P x)); simpl; lia.
  - rewrite !filter_cons. destruct (decide (P y)); simpl; rewrite (IH i Hi); lia.
Qed.

Lemma count_insert {A : Type} (P : A → Prop) `{∀ x, Decision (P x)}
    (xs : list A) (i : nat) (x y : A) :
  xs !! i = Some x →
  length (filter P xs) + (if decide (P y) then 1 else 0) =
  length (filter P (<[i:=y]> xs)) + (if decide (P x) then 1 else 0).
Proof.
  revert i. induction xs as [|z xs IH]; intros [|i] Hi; simplify_eq/=.
  - rewrite !filter_cons. destruct (decide (P x)), (decide (P y)); simpl; lia.
  - rewrite !filter_cons. specialize (IH i Hi).
    destruct (decide (P z)); simpl; lia.
Qed.

Lemma occurrences_snoc l xs f :
  occurrences l (xs ++ [f]) = occurrences l xs + (if decide (f = l) then 1 else 0).
Proof.
  unfold occurrences. rewrite filter_app, length_app. f_equal.
  rewrite filter_cons. by destruct (decide (f = l)).
Qed.

Lemma live_snoc l us f :
  live l (us ++ [{| listener := f; isSubscribed := true |}]) =
  live l us + (if decide (f = l) then 1 else 0).
Proof.
  unfold live. rewrite filter_app, length_app. f_equal.
  rewrite filter_cons. cbn.
  destruct (decide (f = l ∧ true = true)) as [[? _]|Hn], (decide (f = l));
    try reflexivity; try done.
  exfalso. by apply Hn.
Qed.

Lemma occurrences_pos l xs : l ∈ xs ↔ 0 < occurrences l xs.
Proof.
  unfold occurrences. induction xs as [|x xs IH].
  - split; [intros H; by apply elem_of_nil in H | cbn; lia].
  - rewrite filter_cons, elem_of_cons. destruct (decide (x = l)) as [->|Hne].
    + cbn. split; [lia | by left].
    + rewrite <- IH. split; [intros [?|?]; [congruence|done] | by right].
Qed.

(** [indexOf] finds the first occurrence, or answers -1 when there is
    none. *)
Lemma indexOf_spec l xs :
  (indexOf l xs = (-1)%Z ∧ l ∉ xs) ∨
  (∃ i, indexOf l xs = Z.of_nat i ∧ xs !! i = Some l ∧ l ∉ take i xs).
Proof.
  induction xs as [|x xs IH]; cbn [indexOf].
  - left. split; [done | apply not_elem_of_nil].
  - destruct (Nat.eqb_spec x l) as [->|Hne].
    + right. exists 0. repeat split. cbn. apply not_elem_of_nil.
    + destruct IH as [[-> Hn] | (i & -> & Hi & Hpre)].
      * left. split; [reflexivity|].
        rewrite elem_of_cons. intros [?|?]; [congruence|done].
      * right. exists (S i).
        destruct (Z.ltb_spec (Z.of_nat i) 0) as [?|_]; [lia|].
        split; [lia|]. split; [exact Hi|].
        cbn. rewrite elem_of_cons. intros [?|?]; [congruence|done].
Qed.

Lemma splice1_found (xs : list FunRef) i :
  i < length xs → splice1 (Z.of_nat i) xs = delete i xs.
Proof.
  intros Hi. unfold splice1. rewrite delete_take_drop.
  destruct (Z.ltb_spec (Z.of_nat i) 0) as [?|_]; [lia|].
  rewrite Z.min_l by lia. rewrite Z.min_l by lia.
  rewrite Nat2Z.id. replace (Z.to_nat (Z.of_nat i + 1)) with (S i) by lia.
  reflexivity.
Qed.

(** Removing a listener that is registered deletes its first occurrence. *)
Lemma splice1_indexOf l xs :
  l ∈ xs →
  ∃ i, xs !! i = Some l ∧ (l ∉ take i xs) ∧
       indexOf l xs = Z.of_nat i ∧
       splice1 (indexOf l xs) xs = delete i xs.
Proof.
  intros Hin. destruct (indexOf_spec l xs) as [[_ Hn] | (i & Hidx & Hi & Hpre)];
    [done|].
  exists i. repeat split; try done.
  rewrite Hidx. apply splice1_found. by eapply lookup_lt_Some.
Qed.

(** *** How the store evolves *)

Lemma ev_ok_mono p q e : p ≤ q → ev_ok q e → ev_ok p e.
Proof. intros Hpq. destruct e; cbn; try done. intros [? ?]. split; [lia|done]. Qed.

Lemma assigned_app evs1 evs2 s :
  assigned (evs1 ++ evs2) s = assigned evs2 (assigned evs1 s).
Proof. unfold assigned. apply fold_left_app. Qed.

(** A step that leaves the arrays, [nextListeners] and the removal
    closures alone, and sets [currentListeners] to [nextListeners] at
    most. *)
Lemma evolves_same p w w' evs :
  arrays w' = arrays w → nextListeners w' = nextListeners w →
  (currentListeners w' = currentListeners w ∨
   currentListeners w' = nextListeners w) →
  unsubscribers w' = unsubscribers w → passes w ≤ passes w' →
  log w' = log w ++ evs → Forall (ev_ok p) evs →
  currentState w' = assigned evs (currentState w) →
  evolves p w w'.
Proof.
  intros Ha Hn Hc Hu Hp Hl Hev Hs. split.
  - by rewrite Ha.
  - intros r [Hr Hf]. split; [|unfold array_at; by rewrite Ha].
    split; [by rewrite Ha|]. rewrite Hn.
    destruct Hc as [-> | ->]; [done | by right].
  - intros h u Hh. exists u. by rewrite Hu.
  - done.
  - by exists evs.
  - intros [H1 H2 H3]. split.
    + by rewrite Ha, Hn.
    + rewrite Ha. by destruct Hc as [-> | ->].
    + intros l. unfold registry, array_at. rewrite Hn, Ha, Hu. apply H3.
Qed.

Lemma evolves_refl p w : evolves p w w.
Proof.
  apply (evolves_same p w w []); auto. by rewrite app_nil_r.
Qed.

Lemma evolves_trans p q w w1 w2 :
  evolves p w w1 → evolves q w1 w2 → p ≤ q → evolves p w w2.
Proof.
  intros [A1 F1 U1 P1 (evs1 & L1 & O1 & S1) W1]
         [A2 F2 U2 P2 (evs2 & L2 & O2 & S2) W2] Hpq.
  split.
  - lia.
  - intros r Hr. destruct (F1 r Hr) as [Hr1 E1].
    destruct (F2 r Hr1) as [Hr2 E2]. split; [done | congruence].
  - intros h u Hu. destruct (U1 h u Hu) as (u1 & Hu1 & Hl1 & Hs1).
    destruct (U2 h u1 Hu1) as (u2 & Hu2 & Hl2 & Hs2).
    exists u2. repeat split; [done | congruence | auto].
  - lia.
  - exists (evs1 ++ evs2). repeat split.
    + by rewrite L2, L1, app_assoc.
    + apply Forall_app. split; [done|].
      eapply Forall_impl; [exact O2|]. intros e. by apply ev_ok_mono.
    + by rewrite assigned_app, <- S1.
  - auto.
Qed.

(** [ensureCanMutateNextListeners] either does nothing, or points
    [nextListeners] to a new array object holding a copy. *)
Lemma ensure_cases w :
  let w1 := ensureCanMutateNextListeners w in
  (nextListeners w ≠ currentListeners w ∧ w1 = w) ∨
  (nextListeners w = currentListeners w ∧
   nextListeners w1 = length (arrays w) ∧
   arrays w1 = arrays w ++ [array_at (currentListeners w) w] ∧
   currentListeners w1 = currentListeners w ∧
   unsubscribers w1 = unsubscribers w ∧
   isDispatching w1 = isDispatching w ∧
   currentState w1 = currentState w ∧
   currentReducer w1 = currentReducer w ∧
   passes w1 = passes w ∧ log w1 = log w).
Proof.
  unfold ensureCanMutateNextListeners.
  destruct (Nat.eqb_spec (nextListeners w) (currentListeners w)) as [Heq|Hne].
  - right. cbn. repeat split. exact Heq.
  - by left.
Qed.

Lemma ensure_registry w :
  registry (ensureCanMutateNextListeners w) = registry w.
Proof.
  destruct (ensure_cases w) as [[_ ->] | (Heq & Hn & Ha & _)]; [done|].
  unfold registry, array_at at 1. rewrite Hn, Ha.
  rewrite lookup_app_r by lia. rewrite Nat.sub_diag. cbn. by rewrite Heq.
Qed.

Lemma ensure_next_valid w :
  nextListeners w < length (arrays w) →
  nextListeners (ensureCanMutateNextListeners w) <
  length (arrays (ensureCanMutateNextListeners w)).
Proof.
  intros Hv. destruct (ensure_cases w) as [[_ ->] | (_ & Hn & Ha & _)]; [done|].
  rewrite Hn, Ha, length_app. cbn. lia.
Qed.

Lemma ensure_split w :
  currentListeners w < length (arrays w) →
  nextListeners (ensureCanMutateNextListeners w) ≠
  currentListeners (ensureCanMutateNextListeners w).
Proof.
  intros Hv. destruct (ensure_cases w) as [[Hne ->] | (_ & Hn & _ & Hc & _)];
    [done|]. rewrite Hn, Hc. lia.
Qed.

Lemma ensure_old w r :
  r < length (arrays w) →
  r < length (arrays (ensureCanMutateNextListeners w)) ∧
  array_at r (ensureCanMutateNextListeners w) = array_at r w.
Proof.
  intros Hr. destruct (ensure_cases w) as [[_ ->] | (_ & _ & Ha & _)]; [done|].
  unfold array_at. rewrite Ha, length_app, lookup_app_l by done. split; [lia|done].
Qed.

Lemma ensure_frozen w r :
  frozen r w → r ≠ nextListeners (ensureCanMutateNextListeners w).
Proof.
  intros [Hr Hf]. destruct (ensure_cases w) as [[Hne ->] | (_ & Hn & _)].
  - by destruct Hf.
  - rewrite Hn. lia.
Qed.

Lemma ensure_fields w :
  let w1 := ensureCanMutateNextListeners w in
  currentListeners w1 = currentListeners w ∧
  unsubscribers w1 = unsubscribers w ∧
  isDispatching w1 = isDispatching w ∧
  currentState w1 = currentState w ∧
  currentReducer w1 = currentReducer w ∧
  passes w1 = passes w ∧ log w1 = log w.
Proof.
  destruct (ensure_cases w) as [[_ ->] | (_ & _ & _ & H)]; [done|].
  cbn. tauto.
Qed.

(** *** [subscribe] and the removal closures *)

Lemma array_at_write (w' w : Store) (r r' : nat) (ys : list FunRef) :
  arrays w' = <[r := ys]> (arrays w) →
  array_at r' w' =
  if decide (r = r' ∧ r < length (arrays w)) then ys else array_at r' w.
Proof.
  intros Hw. unfold array_at. rewrite Hw. destruct (decide (r = r' ∧ r < length (arrays w))) as [[-> Hr]|Hn].
  - by rewrite list_lookup_insert_eq.
  - destruct (decide (r = r')) as [->|Hne].
    + rewrite list_insert_ge; [done|]. lia.
    + by rewrite list_lookup_insert_ne.
Qed.

Lemma subscribe_function f w :
  subscribe (VFunction f) w =
  (Normal (length (unsubscribers w)),
   set_unsubscribers
     (unsubscribers w ++ [{| listener := f; isSubscribed := true |}])
     (set_arrays
        (<[nextListeners (ensureCanMutateNextListeners w) :=
             registry w ++ [f]]> (arrays (ensureCanMutateNextListeners w)))
        (ensureCanMutateNextListeners w))).
Proof.
  unfold subscribe. cbn. rewrite ensure_registry.
  destruct (ensure_fields w) as (_ & -> & _). reflexivity.
Qed.

(** [subscribe] appends the listener to the [nextListeners] array and
    leaves [currentListeners] and its array as they were. *)
Lemma subscribe_registry f w :
  nextListeners w < length (arrays w) →
  registry (subscribe (VFunction f) w).2 = registry w ++ [f].
Proof.
  intros Hv. rewrite subscribe_function. cbn [snd].
  unfold registry at 1.
  erewrite (array_at_write _ (ensureCanMutateNextListeners w)) by reflexivity.
  apply ensure_next_valid in Hv. cbn. by rewrite decide_True.
Qed.

Lemma subscribe_evolves p l w : evolves p w (subscribe l w).2.
Proof.
  destruct l; try apply evolves_refl.
  rewrite subscribe_function. cbn [snd].
  destruct (ensure_fields w) as (Hc & Hu & Hd & Hs & Hr & Hp & Hl).
  split; simpl_store.
  - rewrite length_insert.
    destruct (ensure_cases w) as [[_ ->] | (_ & _ & -> & _)]; [done|].
    rewrite length_app. lia.
  - intros r Hr'. pose proof (ensure_frozen w r Hr') as Hne.
    destruct Hr' as [Hlt _]. destruct (ensure_old w r Hlt) as [Hlt1 Harr].
    split.
    + split; simpl_store; [by rewrite length_insert | by left].
    + erewrite (array_at_write _ (ensureCanMutateNextListeners w)) by reflexivity.
      rewrite decide_False; [done|]. intros [? _]. done.
  - intros h u Hh. exists u. split; [|done].
    apply lookup_app_l_Some. done.
  - lia.
  - exists []. rewrite app_nil_r. repeat split; [done | constructor | done].
  - intros [H1 H2 H3]. pose proof (ensure_next_valid w H1) as Hv.
    split; simpl_store.
    + by rewrite length_insert.
    + rewrite length_insert, Hc. destruct (ensure_old w _ H2). done.
    + intros l. unfold registry at 1.
      erewrite (array_at_write _ (ensureCanMutateNextListeners w)) by reflexivity.
      simpl_store. rewrite decide_True by done.
      rewrite occurrences_snoc, live_snoc. by rewrite H3.
Qed.

(** What calling a removal closure for the first time does. *)
Lemma unsubscribe_first h u w :
  unsubscribers w !! h = Some u → isSubscribed u = true →
  unsubscribe h w =
  set_arrays
    (<[nextListeners (ensureCanMutateNextListeners w) :=
         splice1 (indexOf (listener u) (registry w)) (registry w)]>
       (arrays (ensureCanMutateNextListeners w)))
    (set_unsubscribers
       (<[h := {| listener := listener u; isSubscribed := false |}]>
          (unsubscribers w))
       (ensureCanMutateNextListeners w)).
Proof.
  intros Hh Hs. unfold unsubscribe. rewrite Hh, Hs. cbn.
  set (w1 := set_unsubscribers _ w).
  assert (Hreg : registry (ensureCanMutateNextListeners w1) = registry w).
  { rewrite ensure_registry. reflexivity. }
  rewrite Hreg.
  assert (He : ensureCanMutateNextListeners w1 =
               set_unsubscribers (unsubscribers w1) (ensureCanMutateNextListeners w)).
  { unfold ensureCanMutateNextListeners. cbn.
    destruct (Nat.eqb (nextListeners w) (currentListeners w)); reflexivity. }
  rewrite He. reflexivity.
Qed.

(** Calling it again, or calling a closure that was never handed out,
    changes nothing. *)
Lemma unsubscribe_again h w :
  (∀ u, unsubscribers w !! h = Some u → isSubscribed u = false) →
  unsubscribe h w = w.
Proof.
  intros H. unfold unsubscribe. destruct (unsubscribers w !! h) as [u|] eqn:Hh; [|done].
  by rewrite (H u eq_refl).
Qed.

Lemma live_pos l us h u :
  us !! h = Some u → isSubscribed u = true → listener u = l → 0 < live l us.
Proof.
  intros Hh Hs Hl. unfold live.
  assert (Hin : u ∈ filter (λ u, listener u = l ∧ isSubscribed u = true) us).
  { apply list_elem_of_filter. split; [done|]. by eapply list_elem_of_lookup_2. }
  destruct (filter _ us); [by apply elem_of_nil in Hin | cbn; lia].
Qed.

Lemma live_switch_off l us h u :
  us !! h = Some u → isSubscribed u = true →
  live l us =
  live l (<[h := {| listener := listener u; isSubscribed := false |}]> us) +
  (if decide (listener u = l) then 1 else 0).
Proof.
  intros Hh Hs. unfold live.
  pose proof (count_insert (λ u, listener u = l ∧ isSubscribed u = true) us h u
                {| listener := listener u; isSubscribed := false |} Hh) as H.
  cbn in H.
  destruct (decide (listener u = l ∧ false = true)) as [[_ ?]|_]; [done|].
  destruct (decide (listener u = l ∧ isSubscribed u = true)) as [[? _]|Hn],
           (decide (listener u = l)); try lia; try done.
  exfalso. by apply Hn.
Qed.

Lemma occurrences_delete l xs i x :
  xs !! i = Some x →
  occurrences l xs = occurrences l (delete i xs) + (if decide (x = l) then 1 else 0).
Proof. intros Hi. unfold occurrences. exact (count_delete (λ y, y = l) xs i x Hi). Qed.

(** In a well-formed store the first call of a removal closure deletes
    the first occurrence of its listener from the [nextListeners] array,
    which by then is no longer the [currentListeners] array. *)
Lemma unsubscribe_registry h u w :
  wf w → unsubscribers w !! h = Some u → isSubscribed u = true →
  ∃ i, registry w !! i = Some (listener u) ∧
       (listener u ∉ take i (registry w)) ∧
       indexOf (listener u) (registry w) = Z.of_nat i ∧
       registry (unsubscribe h w) = delete i (registry w) ∧
       nextListeners (unsubscribe h w) ≠ currentListeners (unsubscribe h w) ∧
       currentListeners (unsubscribe h w) = currentListeners w ∧
       snapshot (unsubscribe h w) = snapshot w.
Proof.
  intros [H1 H2 H3] Hh Hs.
  assert (Hin : listener u ∈ registry w).
  { apply occurrences_pos. rewrite H3. by eapply live_pos. }
  destruct (splice1_indexOf _ _ Hin) as (i & Hi & Hpre & Hidx & Hsp).
  exists i. rewrite (unsubscribe_first h u w Hh Hs).
  destruct (ensure_fields w) as (Hc & _).
  repeat split; try done.
  - unfold registry at 1.
    erewrite (array_at_write _ (ensureCanMutateNextListeners w)) by reflexivity.
    cbn. rewrite decide_True; [done|].
    split; [done|]. by apply ensure_next_valid.
  - cbn. by apply ensure_split.
  - unfold snapshot.
    erewrite (array_at_write _ (ensureCanMutateNextListeners w)) by reflexivity.
    cbn. rewrite decide_False.
    + rewrite Hc. by apply ensure_old.
    + intros [Heq _]. revert Heq. by apply ensure_split.
Qed.

Lemma unsubscribe_evolves p h w : evolves p w (unsubscribe h w).
Proof.
  destruct (unsubscribers w !! h) as [u|] eqn:Hh;
    [|rewrite unsubscribe_again; [apply evolves_refl | intros u; congruence]].
  destruct (isSubscribed u) eqn:Hs;
    [|rewrite unsubscribe_again; [apply evolves_refl | intros u'; congruence]].
  pose proof (unsubscribe_registry h u w) as Hreg.
  rewrite (unsubscribe_first h u w Hh Hs) in *.
  destruct (ensure_fields w) as (Hc & Hu & Hd & Hst & Hr & Hp & Hl).
  split; simpl_store.
  - rewrite length_insert.
    destruct (ensure_cases w) as [[_ ->] | (_ & _ & -> & _)]; [done|].
    rewrite length_app. lia.
  - intros r Hr'. pose proof (ensure_frozen w r Hr') as Hne.
    destruct Hr' as [Hlt _]. destruct (ensure_old w r Hlt) as [Hlt1 Harr].
    split.
    + split; simpl_store; [by rewrite length_insert | by left].
    + erewrite (array_at_write _ (ensureCanMutateNextListeners w)) by reflexivity.
      rewrite decide_False; [done|]. intros [? _]. done.
  - intros h' u' Hh'. destruct (decide (h = h')) as [<-|Hne].
    + rewrite Hh in Hh'. injection Hh' as <-.
      eexists. split; [apply list_lookup_insert_eq; by eapply lookup_lt_Some|].
      cbn. done.
    + exists u'. by rewrite list_lookup_insert_ne.
  - lia.
  - exists []. rewrite app_nil_r. repeat split; [done | constructor | done].
  - intros Hwf. destruct (Hreg Hwf Hh Hs) as (i & Hi & _ & _ & Hdel & _).
    destruct Hwf as [H1 H2 H3]. split; simpl_store.
    + rewrite length_insert. by apply ensure_next_valid.
    + rewrite length_insert, Hc. destruct (ensure_old w _ H2). done.
    + intros l. rewrite Hdel.
      pose proof (occurrences_delete l _ _ _ Hi) as Ho.
      pose proof (live_switch_off l _ _ _ Hh Hs) as Hlv.
      rewrite H3 in Ho. lia.
Qed.

(** *** Complete calls *)

Lemma ext_quiet p w w' :
  evolves p w w' → isDispatching w' = isDispatching w →
  log w' = log w → passes w' = passes w → ext p w w'.
Proof. intros. split; [done | split; done]. Qed.

Lemma ext_refl p w : ext p w w.
Proof. apply ext_quiet; auto using evolves_refl. Qed.

Lemma ext_trans p q w w1 w2 :
  ext p w w1 → ext q w1 w2 → p ≤ q → ext p w w2.
Proof.
  intros (E1 & F1 & Q1) (E2 & F2 & Q2) Hpq. split; [|split].
  - by eapply evolves_trans.
  - congruence.
  - intros Hd. destruct (Q1 Hd) as [L1 P1]. rewrite <- F1 in Hd.
    destruct (Q2 Hd) as [L2 P2]. split; congruence.
Qed.

Lemma subscribe_ext p l w : ext p w (subscribe l w).2.
Proof.
  apply ext_quiet; [apply subscribe_evolves | | |];
    (destruct l; try reflexivity; rewrite subscribe_function; simpl_store;
     destruct (ensure_fields w) as (_ & _ & ? & _ & _ & ? & ?); done).
Qed.

Lemma unsubscribe_ext p h w : ext p w (unsubscribe h w).
Proof.
  apply ext_quiet; [apply unsubscribe_evolves | | |];
    (destruct (unsubscribers w !! h) as [u|] eqn:Hh;
       [|by rewrite unsubscribe_again by (intros u; congruence)];
     destruct (isSubscribed u) eqn:Hs;
       [|by rewrite unsubscribe_again by (intros u'; congruence)];
     rewrite (unsubscribe_first h u w Hh Hs); simpl_store;
     destruct (ensure_fields w) as (_ & _ & ? & _ & _ & ? & ?); done).
Qed.

Lemma set_currentReducer_ext p r w : ext p w (set_currentReducer r w).
Proof.
  apply ext_quiet; try reflexivity.
  apply (evolves_same p _ _ []); simpl_store; auto. by rewrite app_nil_r.
Qed.

Lemma set_outside_ext p v w : ext p w (set_outside v w).
Proof.
  apply ext_quiet; try reflexivity.
  apply (evolves_same p _ _ []); simpl_store; auto. by rewrite app_nil_r.
Qed.

Lemma set_isDispatching_evolves p b w : evolves p w (set_isDispatching b w).
Proof.
  apply (evolves_same p _ _ []); simpl_store; auto. by rewrite app_nil_r.
Qed.

Lemma record_evolves p e w :
  ev_ok p e → (∀ s, e ≠ StateAssigned s) → evolves p w (record e w).
Proof.
  intros He Hne. apply (evolves_same p _ _ [e]); simpl_store; auto.
  destruct e; try reflexivity. by destruct (Hne s).
Qed.

Lemma assign_state_evolves p s w : evolves p w (assign_state s w).
Proof.
  apply (evolves_same p _ _ [StateAssigned s]); unfold assign_state; simpl_store; auto.
  repeat constructor.
Qed.

Lemma start_pass_evolves p w : evolves p w (start_pass w).
Proof.
  apply (evolves_same p _ _ []); unfold start_pass; simpl_store; auto.
  by rewrite app_nil_r.
Qed.

Lemma dispatch_guard_None a w :
  dispatch_guard a w = None ↔
  isPlainObject a = true ∧ typeof (get a "type") ≠ "undefined" ∧
  isDispatching w = false.
Proof.
  unfold dispatch_guard.
  destruct (isPlainObject a); cbn; [|split; [done | by intros [? _]]].
  destruct (String.eqb_spec (typeof (get a "type")) "undefined") as [->|Hne];
    [split; [done | by intros (_ & ? & _)]|].
  destruct (isDispatching w); [split; [done | by intros (_ & _ & ?)] | done].
Qed.

Lemma exec_S code n p w :
  exec code (S n) p w =
  match p with
  | Return v => Some (Normal v, w)
  | Throw e => Some (Abrupt e, w)
  | GetState k => exec code n (k (getState w)) w
  | Subscribe l k => exec code n (k (subscribe l w).1) (subscribe l w).2
  | Unsubscribe h k => exec code n k (unsubscribe h w)
  | Dispatch action k =>
      match dispatch code n action w with
      | None => None
      | Some (r, w1) => exec code n (k r) w1
      end
  | ReplaceReducer nextReducer k =>
      match replaceReducer code n nextReducer w with
      | None => None
      | Some (r, w1) => exec code n (k r) w1
      end
  | Load k => exec code n (k (outside w)) w
  | Save v k => exec code n k (set_outside v w)
  end.
Proof.
  destruct p; try reflexivity.
  - cbn [exec]. by destruct (subscribe listener0 w).
  - cbn [exec]. unfold replaceReducer. destruct nextReducer; try reflexivity.
    destruct (dispatch code n INIT _) as [[[?|?] ?]|]; reflexivity.
Qed.

Lemma dispatch_S code n a w :
  dispatch code (S n) a w =
  match dispatch_guard a w with
  | Some e => Some (Abrupt e, w)
  | None =>
      match call_reducer code (exec code n) a (set_isDispatching true w) with
      | None => None
      | Some (Abrupt e, w1) => Some (Abrupt e, set_isDispatching false w1)
      | Some (Normal s, w1) =>
          match notify code n (nextListeners w1) 0 (passes w1)
                  (start_pass (set_isDispatching false (assign_state s w1))) with
          | None => None
          | Some (Abrupt e, w4) => Some (Abrupt e, w4)
          | Some (Normal _, w4) => Some (Normal a, w4)
          end
      end
  end.
Proof. reflexivity. Qed.

Lemma dispatch_rejected code fuel a w e :
  dispatch_guard a w = Some e → dispatch code fuel a w = Some (Abrupt e, w).
Proof. intros H. destruct fuel; cbn [dispatch]; by rewrite H. Qed.

Lemma notify_S code n ls i pass w :
  notify code (S n) ls i pass w =
  match array_at ls w !! i with
  | None => Some (Normal VUndefined, w)
  | Some l =>
      match call_listener code (exec code n) pass l w with
      | None => None
      | Some (Abrupt e, w1) => Some (Abrupt e, w1)
      | Some (Normal _, w1) => notify code n ls (S i) pass w1
      end
  end.
Proof. reflexivity. Qed.

(** Every complete run of a callback body, of [dispatch] and of the
    notification loop extends the store. *)
Lemma run_ext code fuel :
  (∀ p w o w', exec code fuel p w = Some (o, w') → ext (passes w) w w') ∧
  (∀ a w o w', dispatch code fuel a w = Some (o, w') → ext (passes w) w w') ∧
  (∀ ls i pass w o w', isDispatching w = false → pass ≤ passes w →
      notify code fuel ls i pass w = Some (o, w') → ext pass w w').
Proof.
  induction fuel as [|n (IHe & IHd & IHn)].
  { split; [done|]. split; [|done].
    intros a w o w' H. destruct (dispatch_guard a w) as [e|] eqn:Hg.
    - rewrite (dispatch_rejected _ _ _ _ _ Hg) in H. injection H as <- <-.
      apply ext_refl.
    - cbn in H. by rewrite Hg in H. }
  assert (Hd : ∀ a w o w', dispatch code (S n) a w = Some (o, w') →
                 ext (passes w) w w').
  { intros a w o w' H. rewrite dispatch_S in H.
    destruct (dispatch_guard a w) as [e|] eqn:Hg.
    { injection H as <- <-. apply ext_refl. }
    apply dispatch_guard_None in Hg as (_ & _ & Hflag).
    set (w0 := set_isDispatching true w) in *.
    assert (Hr : ∀ o1 w1, call_reducer code (exec code n) a w0 = Some (o1, w1) →
                   evolves (passes w) w w1 ∧ isDispatching w1 = true ∧
                   passes w1 = passes w).
    { intros o1 w1 Hc. unfold call_reducer in Hc. subst w0. simpl_store.
      destruct (currentReducer w);
        try (injection Hc as <- <-; split;
               [apply set_isDispatching_evolves | done]).
      apply IHe in Hc as (E & F & Q). simpl_store.
      destruct (Q eq_refl) as [_ HP]. simpl_store.
      split; [|done].
      eapply evolves_trans; [apply (set_isDispatching_evolves _ true)| |reflexivity].
      eapply evolves_trans; [|exact E|reflexivity]. by apply record_evolves. }
    destruct (call_reducer code (exec code n) a w0) as [[[s|e] w1]|] eqn:Hc;
      [| |done]; destruct (Hr _ _ eq_refl) as (E1 & F1 & P1).
    - set (w3 := start_pass (set_isDispatching false (assign_state s w1))) in *.
      assert (E3 : evolves (passes w) w w3).
      { eapply evolves_trans; [exact E1| |reflexivity].
        eapply evolves_trans; [apply assign_state_evolves| |reflexivity].
        eapply evolves_trans; [apply set_isDispatching_evolves| |reflexivity].
        apply start_pass_evolves. }
      destruct (notify code n (nextListeners w1) 0 (passes w1) w3)
        as [[o2 w4]|] eqn:Hn; [|done].
      assert (X : ext (passes w1) w3 w4).
      { eapply IHn; [reflexivity| |exact Hn]. subst w3. unfold start_pass.
        simpl_store. unfold assign_state. simpl_store. lia. }
      assert (w' = w4) as -> by (destruct o2; congruence).
      destruct X as (E4 & F4 & _). split; [|split].
      + eapply evolves_trans; [exact E3|exact E4|lia].
      + rewrite F4. subst w3. unfold start_pass. simpl_store. done.
      + intros. congruence.
    - injection H as <- <-. split; [|split]; simpl_store.
      + eapply evolves_trans; [exact E1|apply set_isDispatching_evolves|reflexivity].
      + done.
      + intros. congruence. }
  split; [|split; [exact Hd|]].
  - intros p w o w' H. rewrite exec_S in H. destruct p.
    + injection H as <- <-. apply ext_refl.
    + injection H as <- <-. apply ext_refl.
    + by apply IHe in H.
    + apply IHe in H. eapply ext_trans; [apply subscribe_ext|exact H|].
      destruct (subscribe_ext 0 listener0 w) as (E & _). apply E.
    + apply IHe in H. eapply ext_trans; [apply unsubscribe_ext|exact H|].
      destruct (unsubscribe_ext 0 h w) as (E & _). apply E.
    + destruct (dispatch code n action w) as [[r w1]|] eqn:Hdw; [|done].
      apply IHd in Hdw. apply IHe in H.
      eapply ext_trans; [exact Hdw|exact H|]. destruct Hdw as (E & _). apply E.
    + destruct (replaceReducer code n nextReducer w) as [[r w1]|] eqn:Hrw; [|done].
      apply IHe in H.
      assert (X : ext (passes w) w w1).
      { unfold replaceReducer in Hrw. destruct nextReducer;
          try (injection Hrw as <- <-; apply ext_refl).
        destruct (dispatch code n INIT _) as [[r' w2]|] eqn:Hdw; [|done].
        apply IHd in Hdw. simpl_store.
        assert (w1 = w2) as -> by (destruct r'; congruence).
        eapply ext_trans; [apply set_currentReducer_ext|exact Hdw|done]. }
      eapply ext_trans; [exact X|exact H|]. destruct X as (E & _). apply E.
    + by apply IHe in H.
    + apply IHe in H. eapply ext_trans; [apply set_outside_ext|exact H|done].
  - intros ls i pass w o w' Hflag Hpass H. rewrite notify_S in H.
    destruct (array_at ls w !! i) as [l|];
      [|injection H as <- <-; apply ext_refl].
    unfold call_listener in H. rewrite Hflag in H.
    destruct (exec code n (code l []) _) as [[o1 w1]|] eqn:Hx; [|done].
    apply IHe in Hx. simpl_store.
    assert (X : ext pass w w1).
    { destruct Hx as (E & F & Q). simpl_store. split; [|split].
      - eapply evolves_trans; [|exact E|done]. by apply record_evolves.
      - done.
      - intros. congruence. }
    destruct o1 as [v|e].
    + eapply ext_trans; [exact X| |reflexivity].
      destruct X as (E & F & _).
      eapply IHn; [congruence| |exact H]. pose proof (ev_passes _ _ _ E). lia.
    + by injection H as <- <-.
Qed.

(** *** The notification pass *)

Lemma called_in_app p evs1 evs2 :
  called_in p (evs1 ++ evs2) = called_in p evs1 ++ called_in p evs2.
Proof. unfold called_in. apply omap_app. Qed.

(** Passes started later record nothing under an earlier number. *)
Lemma called_in_later p pass evs :
  Forall (ev_ok p) evs → pass < p → called_in pass evs = [].
Proof.
  intros H Hp. induction H as [|e evs He _ IH]; [reflexivity|].
  unfold called_in in *. cbn. rewrite IH. destruct e; try reflexivity.
  destruct He as [Hq _]. destruct (Nat.eqb_spec pass0 pass); [lia|reflexivity].
Qed.

Lemma frozen_same r w w' :
  arrays w' = arrays w → nextListeners w' = nextListeners w →
  currentListeners w' = currentListeners w → frozen r w → frozen r w'.
Proof. unfold frozen. by intros -> -> ->. Qed.

(** The loop calls the elements of the array object it was given, from
    index [i] on, in order, whatever the listeners do to the store; it
    stops at the first listener that throws, with that listener's error
    and the store as that listener left it. *)
Lemma notify_calls code fuel :
  ∀ ls i pass w o w',
    isDispatching w = false → pass < passes w → frozen ls w →
    notify code fuel ls i pass w = Some (o, w') →
    ∃ evs k,
      log w' = log w ++ evs ∧
      currentState w' = assigned evs (currentState w) ∧
      array_at ls w' = array_at ls w ∧
      called_in pass evs = take k (drop i (array_at ls w)) ∧
      match o with
      | Normal _ => k = length (drop i (array_at ls w))
      | Abrupt e =>
          ∃ j l m wk, k = S j ∧ array_at ls w !! (i + j) = Some l ∧
            call_listener code (exec code m) pass l wk = Some (Abrupt e, w')
      end.
Proof.
  induction fuel as [|n IH]; intros ls i pass w o w' Hflag Hpass Hfr H; [done|].
  rewrite notify_S in H.
  destruct (array_at ls w !! i) as [l|] eqn:Hi.
  2:{ injection H as <- <-. exists [], 0. rewrite app_nil_r.
      repeat split; try done. rewrite drop_ge; [done|].
      by apply lookup_ge_None. }
  destruct (call_listener code (exec code n) pass l w) as [[o1 w1]|] eqn:Hc;
    [|done].
  pose proof Hc as Hx. unfold call_listener in Hx. rewrite Hflag in Hx.
  apply (proj1 (run_ext code n)) in Hx as (E & F & _). simpl_store.
  destruct E as [_ Fz _ Ps (evs1 & L1 & O1 & S1) _]. simpl_store.
  destruct (Fz ls) as [Hfr1 Harr1]; [by eapply frozen_same; [| | |exact Hfr]|].
  assert (Harr : array_at ls w1 = array_at ls w) by (by rewrite Harr1).
  assert (Hc1 : called_in pass evs1 = []) by (by eapply called_in_later).
  assert (Hdrop : drop i (array_at ls w) = l :: drop (S i) (array_at ls w)).
  { by apply drop_S. }
  destruct o1 as [v|e].
  - destruct (IH ls (S i) pass w1 o w') as (evs2 & k2 & L2 & S2 & A2 & C2 & R2);
      [congruence | lia | done | done |].
    exists (ListenerCalled pass false l :: evs1 ++ evs2), (S k2).
    rewrite Harr in *. repeat split.
    + rewrite L2, L1, <- !app_assoc. reflexivity.
    + rewrite S2, S1. change (ListenerCalled pass false l :: evs1 ++ evs2)
        with ([ListenerCalled pass false l] ++ (evs1 ++ evs2)).
      by rewrite !assigned_app.
    + congruence.
    + change (ListenerCalled pass false l :: evs1 ++ evs2)
        with ([ListenerCalled pass false l] ++ (evs1 ++ evs2)).
      rewrite !called_in_app, Hc1, C2, Hdrop. cbn. by rewrite Nat.eqb_refl.
    + destruct o as [v'|e].
      * rewrite R2, Hdrop. reflexivity.
      * destruct R2 as (j & l' & m & wk & -> & Hl' & Hcall).
        exists (S j), l', m, wk. repeat split; [|done].
        by replace (i + S j) with (S i + j) by lia.
  - injection H as <- <-.
    exists (ListenerCalled pass false l :: evs1), 1. repeat split.
    + rewrite L1, <- app_assoc. reflexivity.
    + rewrite S1. change (ListenerCalled pass false l :: evs1)
        with ([ListenerCalled pass false l] ++ evs1).
      by rewrite assigned_app.
    + done.
    + change (ListenerCalled pass false l :: evs1)
        with ([ListenerCalled pass false l] ++ evs1).
      rewrite called_in_app, Hc1, Hdrop. cbn. by rewrite Nat.eqb_refl.
    + exists 0, l, n, w. rewrite Nat.add_0_r. done.
Qed.

(** *** [dispatch], step by step *)

(** The reducer call: it cannot change the state, start a pass or record
    anything but its own invocation, and it ends with the flag still
    set. *)
Lemma call_reducer_run code n a w o1 w1 :
  call_reducer code (exec code n) a (set_isDispatching true w) = Some (o1, w1) →
  evolves (passes w) w w1 ∧ isDispatching w1 = true ∧
  passes w1 = passes w ∧ currentState w1 = currentState w ∧
  (log w1 = log w ∨ log w1 = log w ++ [ReducerCalled true (currentState w) a]) ∧
  (∀ v, o1 = Normal v → log w1 = log w ++ [ReducerCalled true (currentState w) a]).
Proof.
  intros Hc. unfold call_reducer in Hc. simpl_store.
  destruct (currentReducer w);
    try (injection Hc as <- <-; simpl_store;
         split; [apply set_isDispatching_evolves | repeat split; [by left | done]]).
  apply (proj1 (run_ext code n)) in Hc as (E & F & Q). simpl_store.
  destruct (Q eq_refl) as [HL HP]. simpl_store.
  pose proof E as E'.
  destruct E as [A Fz U Ps (evs & L & O & St) W]. simpl_store.
  assert (evs = []) as ->.
  { rewrite HL in L. rewrite <- (app_nil_r (log w ++ _)) in L at 1.
    by apply app_inv_head in L. }
  cbn in St.
  split; [|repeat split; try done; by right].
  eapply evolves_trans; [apply (set_isDispatching_evolves _ true)| |reflexivity].
  eapply evolves_trans; [|exact E'|reflexivity]. by apply record_evolves.
Qed.

(** A dispatch whose reducer returned [s]: the state is assigned, then
    the pass goes through the contents that the [nextListeners] array had
    when the reducer returned. *)
Lemma dispatch_returned code n a w s w1 o w' :
  wf w → dispatch_guard a w = None →
  call_reducer code (exec code n) a (set_isDispatching true w) = Some (Normal s, w1) →
  dispatch code (S n) a w = Some (o, w') →
  ∃ evs k,
    log w' = log w1 ++ StateAssigned s :: evs ∧
    currentState w' = assigned evs s ∧
    isDispatching w' = false ∧
    array_at (nextListeners w1) w' = registry w1 ∧
    called_in (passes w1) evs = take k (registry w1) ∧
    match o with
    | Normal v => v = a ∧ k = length (registry w1)
    | Abrupt e =>
        ∃ j l m wk, k = S j ∧ registry w1 !! j = Some l ∧
          call_listener code (exec code m) (passes w1) l wk = Some (Abrupt e, w')
    end.
Proof.
  intros Hwf Hg Hc H. rewrite dispatch_S, Hg, Hc in H.
  destruct (call_reducer_run _ _ _ _ _ _ Hc) as (E1 & F1 & P1 & S1 & _).
  pose proof (ev_wf _ _ _ E1 Hwf) as [Hnext _ _].
  set (w3 := start_pass (set_isDispatching false (assign_state s w1))) in *.
  destruct (notify code n (nextListeners w1) 0 (passes w1) w3) as [[o2 w4]|] eqn:Hn;
    [|done].
  assert (w' = w4) as -> by (destruct o2; congruence).
  assert (Hf3 : isDispatching w3 = false) by reflexivity.
  assert (Hp3 : passes w1 < passes w3) by (subst w3; cbn; lia).
  assert (Hfr3 : frozen (nextListeners w1) w3).
  { subst w3. split; cbn; [done | by right]. }
  destruct (notify_calls code n _ _ _ _ _ _ Hf3 Hp3 Hfr3 Hn)
    as (evs & k & L & St & A & C & R).
  assert (Harr : array_at (nextListeners w1) w3 = registry w1) by reflexivity.
  rewrite Harr, drop_0 in *.
  exists evs, k. repeat split; try done.
  - rewrite L. subst w3. cbn. by rewrite <- app_assoc.
  - apply (proj2 (proj2 (run_ext code n))) in Hn as (_ & F & _);
      [congruence | done | lia].
  - destruct o2 as [v|e]; injection H as <-; [done|].
    destruct R as (j & l & m & wk & -> & Hl & Hcall). by exists j, l, m, wk.
Qed.

(** A dispatch whose reducer threw. *)
Lemma dispatch_reducer_threw code n a w e w1 :
  dispatch_guard a w = None →
  call_reducer code (exec code n) a (set_isDispatching true w) = Some (Abrupt e, w1) →
  dispatch code (S n) a w = Some (Abrupt e, set_isDispatching false w1) ∧
  currentState w1 = currentState w ∧ passes w1 = passes w ∧
  (log w1 = log w ∨ log w1 = log w ++ [ReducerCalled true (currentState w) a]).
Proof.
  intros Hg Hc. rewrite dispatch_S, Hg, Hc.
  destruct (call_reducer_run _ _ _ _ _ _ Hc) as (_ & _ & P1 & S1 & L1 & _).
  done.
Qed.

(** *** Quiet listeners: the dispatch returns *)

Lemma record_listeners_fields p ls :
  ∀ w0, let w' := fold_left (λ w1 l, record (ListenerCalled p false l) w1) ls w0 in
    currentReducer w' = currentReducer w0 ∧ currentState w' = currentState w0 ∧
    currentListeners w' = currentListeners w0 ∧
    nextListeners w' = nextListeners w0 ∧
    isDispatching w' = isDispatching w0 ∧ arrays w' = arrays w0 ∧
    unsubscribers w' = unsubscribers w0 ∧ passes w' = passes w0 ∧
    log w' = log w0 ++ map (ListenerCalled p false) ls.
Proof.
  induction ls as [|l ls IH]; intros w0; cbn.
  - by rewrite app_nil_r.
  - destruct (IH (record (ListenerCalled p false l) w0))
      as (? & ? & ? & ? & ? & ? & ? & ? & HL).
    repeat split; try done. rewrite HL. cbn. by rewrite <- app_assoc.
Qed.

Lemma notify_quiet code ls pass fuel :
  ∀ i w,
    (∀ l, l ∈ drop i (array_at ls w) → quiet code l) →
    isDispatching w = false →
    length (drop i (array_at ls w)) + 1 ≤ fuel →
    notify code fuel ls i pass w =
    Some (Normal VUndefined,
          fold_left (λ w1 l, record (ListenerCalled pass false l) w1)
            (drop i (array_at ls w)) w).
Proof.
  induction fuel as [|n IH]; intros i w Hq Hflag Hfuel; [lia|].
  rewrite notify_S. destruct (array_at ls w !! i) as [l|] eqn:Hi.
  - rewrite (drop_S _ _ _ Hi) in *. cbn in Hfuel.
    destruct (Hq l) as [v Hv]; [left|].
    unfold call_listener. rewrite Hv, Hflag.
    destruct n as [|m]; [lia|]. cbn [exec].
    rewrite (IH (S i) (record (ListenerCalled pass false l) w)); [done| |done|].
    + intros l' Hl'. apply Hq. by right.
    + change (array_at ls (record (ListenerCalled pass false l) w))
        with (array_at ls w). lia.
  - rewrite drop_ge; [done|]. by apply lookup_ge_None.
Qed.

(** With a pure reducer and quiet listeners, [dispatch] of a valid action
    returns the action, given fuel for the reducer and one call per
    listener. *)
Lemma dispatch_quiet code r f a w fuel :
  pure_reducer code r f → currentReducer w = VFunction r →
  valid_action a → isDispatching w = false →
  (∀ l, l ∈ registry w → quiet code l) →
  length (registry w) + 2 ≤ fuel →
  dispatch code fuel a w =
  Some (Normal a, quietly_dispatched (f (currentState w) a) a (registry w) w).
Proof.
  intros Hpure Hr [Hplain Htype] Hflag Hq Hfuel.
  destruct fuel as [|[|m]]; [lia|lia|].
  rewrite dispatch_S.
  rewrite (proj2 (dispatch_guard_None a w)) by done.
  unfold call_reducer. simpl_store. rewrite Hr, Hpure. cbn [exec].
  set (w1 := record _ (set_isDispatching true w)).
  set (w3 := start_pass _).
  assert (Harr : array_at (nextListeners w1) w3 = registry w) by reflexivity.
  rewrite (notify_quiet code _ _ (S m) 0 w3); rewrite ?Harr, ?drop_0; try done.
  cbn in Hfuel. lia.
Qed.

Lemma quietly_dispatched_fields s a ls w :
  let w' := quietly_dispatched s a ls w in
  currentReducer w' = currentReducer w ∧ currentState w' = s ∧
  currentListeners w' = nextListeners w ∧ nextListeners w' = nextListeners w ∧
  isDispatching w' = false ∧ arrays w' = arrays w ∧
  unsubscribers w' = unsubscribers w ∧ passes w' = S (passes w) ∧
  log w' = log w ++ ReducerCalled true (currentState w) a :: StateAssigned s ::
             map (ListenerCalled (passes w) false) ls.
Proof.
  unfold quietly_dispatched.
  destruct (record_listeners_fields (passes w) ls
              (start_pass (set_isDispatching false (assign_state s
                 (record (ReducerCalled true (currentState w) a)
                    (set_isDispatching true w))))))
    as (-> & -> & -> & -> & -> & -> & -> & -> & ->).
  cbn. repeat split. by rewrite <- !app_assoc.
Qed.

Lemma initialStore_wf reducer preloadedState : wf (initialStore reducer preloadedState).
Proof. split; cbn; first [lia | done]. Qed.

(** A store built by [createStore] is well formed and idle. *)
Lemma createStore_wf code fuel reducer preloadedState enhancer w :
  createStore code fuel reducer preloadedState enhancer = Some (Normal (StoreOf w)) →
  wf w ∧ isDispatching w = false.
Proof.
  unfold createStore. intros H.
  destruct (_ && _); destruct (negb _);
    repeat match type of H with
           | match ?x with _ => _ end = _ => destruct x eqn:?; try done
           end;
    match goal with
    | Hd : dispatch _ _ _ (initialStore ?r ?s) = Some (_, ?w1) |- _ =>
        apply (proj1 (proj2 (run_ext code fuel))) in Hd as (E & F & _);
        injection H as <-; split;
          [exact (ev_wf _ _ _ E (initialStore_wf r s)) | exact F]
    end.
Qed.

(** *** The store as its callers see it *)

Lemma valid_INIT : valid_action INIT.
Proof. split; [reflexivity | cbn; discriminate]. Qed.

Lemma quietly_dispatched_registry s a ls w :
  registry (quietly_dispatched s a ls w) = registry w.
Proof.
  destruct (quietly_dispatched_fields s a ls w) as (_ & _ & _ & Hn & _ & Ha & _).
  unfold registry, array_at. by rewrite Hn, Ha.
Qed.

(** With a pure reducer and no listener, a list of valid actions folds
    the reducer over the state. *)
Lemma dispatch_all_fold code r f fuel actions :
  pure_reducer code r f → Forall valid_action actions → 2 ≤ fuel →
  ∀ w, currentReducer w = VFunction r → isDispatching w = false →
       registry w = [] →
       ∃ w', dispatch_all code fuel actions w = Some w' ∧
             getState w' = fold_left f actions (getState w).
Proof.
  intros Hpure Hvalid Hfuel. induction Hvalid as [|a actions Ha _ IH]; intros w Hr Hflag Hreg.
  - by exists w.
  - cbn [dispatch_all fold_left].
    rewrite (dispatch_quiet code r f a w fuel Hpure Hr Ha Hflag).
    + destruct (quietly_dispatched_fields (f (currentState w) a) a (registry w) w)
        as (Hr' & Hs' & _ & _ & Hf' & _).
      destruct (IH (quietly_dispatched (f (currentState w) a) a (registry w) w))
        as (w' & Hw' & Hst); [congruence | done | |].
      * by rewrite quietly_dispatched_registry.
      * exists w'. split; [done|]. rewrite Hst. unfold getState. by rewrite Hs'.
    + rewrite Hreg. intros l Hl. by apply elem_of_nil in Hl.
    + rewrite Hreg. cbn. lia.
Qed.

(** C1. Without an enhancer, [createStore(r, s0)] followed by the
    dispatch of valid actions leaves in [getState()] the left fold of the
    reducer over the actions, starting from [r(s0, INIT)]; right after
    construction [getState()] is [r(s0, INIT)].  The result is a function
    of the reducer, the preloaded state and the actions alone. *)
Theorem createStore_then_dispatch_folds_reducer
    code r f (s0 : JsValue) (actions : list JsValue) fuel :
  pure_reducer code r f → typeof s0 ≠ "function" →
  Forall valid_action actions → 2 ≤ fuel →
  ∃ w0 w,
    createStore code fuel (VFunction r) s0 VUndefined = Some (Normal (StoreOf w0)) ∧
    getState w0 = f s0 INIT ∧
    dispatch_all code fuel actions w0 = Some w ∧
    getState w = fold_left f actions (f s0 INIT).
Proof.
  intros Hpure Hs0 Hvalid Hfuel.
  set (w0 := quietly_dispatched (f s0 INIT) INIT []
               (initialStore (VFunction r) s0)).
  assert (Hc : createStore code fuel (VFunction r) s0 VUndefined =
               Some (Normal (StoreOf w0))).
  { unfold createStore. apply String.eqb_neq in Hs0. rewrite Hs0. cbn.
    rewrite (dispatch_quiet code r f INIT _ fuel Hpure); try done.
    intros l Hl. by apply elem_of_nil in Hl. }
  destruct (dispatch_all_fold code r f fuel actions Hpure Hvalid Hfuel w0)
    as (w & Hw & Hst); try done.
  exists w0, w. repeat split; done.
Qed.

Lemma createStore_then_dispatch_folds_reducer_witness :
  ∃ w0 w,
    createStore Samples.sample_code 2 (VFunction 0) VUndefined VUndefined =
      Some (Normal (StoreOf w0)) ∧
    getState w0 = VNumber 0 ∧
    dispatch_all Samples.sample_code 2
      [Samples.INCREMENT; Samples.INCREMENT; Samples.INCREMENT] w0 = Some w ∧
    getState w = VNumber 3.
Proof.
  apply (createStore_then_dispatch_folds_reducer Samples.sample_code 0 Samples.count
           VUndefined [Samples.INCREMENT; Samples.INCREMENT; Samples.INCREMENT] 2).
  - intros s a. reflexivity.
  - cbn. discriminate.
  - repeat constructor; cbn; discriminate.
  - lia.
Defined.

(** C4. [dispatch] of a value that is not a plain object, or of a plain
    object whose [type] is undefined, throws one of the two errors for a
    malformed action, whatever the flag and the fuel; the store is left
    exactly as it was, so the reducer is not called and neither the state
    nor the listeners change.  A string and an array are not plain
    objects, and [{}] has no [type]. *)
Theorem dispatch_rejects_malformed_action code (w : Store) :
  (∀ a, isPlainObject a = false ∨ typeof (get a "type") = "undefined" →
        ∃ e, InvalidActionError e ∧
             ∀ fuel, dispatch code fuel a w = Some (Abrupt e, w)) ∧
  (∀ s, isPlainObject (VString s) = false) ∧
  (∀ items, isPlainObject (VArray items) = false) ∧
  (∀ fuel, dispatch code fuel (VObject []) w = Some (Abrupt (Error msg_type), w)).
Proof.
  split; [|repeat split].
  - intros a Ha. destruct (isPlainObject a) eqn:Hp.
    + destruct Ha as [?|Ht]; [done|].
      exists (Error msg_type). split; [by right|]. intros fuel.
      apply dispatch_rejected. unfold dispatch_guard. by rewrite Hp, Ht.
    + exists (Error msg_plain). split; [by left|]. intros fuel.
      apply dispatch_rejected. unfold dispatch_guard. by rewrite Hp.
  - intros fuel. by apply dispatch_rejected.
Qed.

Lemma dispatch_rejects_malformed_action_witness :
  ∃ e, InvalidActionError e ∧
       ∀ fuel, dispatch Samples.sample_code fuel (VString "INCREMENT")
                 (Samples.store_with 0) =
               Some (Abrupt e, Samples.store_with 0).
Proof.
  apply (proj1 (dispatch_rejects_malformed_action Samples.sample_code
                  (Samples.store_with 0))).
  left. reflexivity.
Defined.

(** C10. The action [{type: '@@redux/INIT'}] is an action like any
    other: it passes the checks that every valid action passes, [dispatch]
    runs the same steps on it (reducer call, assignment, pass), and with
    a pure reducer and listeners that return it calls the reducer on it,
    assigns the result and calls every registered listener. *)
Theorem dispatch_has_no_case_for_INIT code (w : Store) :
  valid_action INIT ∧
  (∀ a, valid_action a → dispatch_guard a w = dispatch_guard INIT w) ∧
  (∀ a n, valid_action a → isDispatching w = false →
     dispatch code (S n) a w =
     match call_reducer code (exec code n) a (set_isDispatching true w) with
     | None => None
     | Some (Abrupt e, w1) => Some (Abrupt e, set_isDispatching false w1)
     | Some (Normal s, w1) =>
         match notify code n (nextListeners w1) 0 (passes w1)
                 (start_pass (set_isDispatching false (assign_state s w1))) with
         | None => None
         | Some (Abrupt e, w4) => Some (Abrupt e, w4)
         | Some (Normal _, w4) => Some (Normal a, w4)
         end
     end) ∧
  (∀ r f fuel,
     pure_reducer code r f → currentReducer w = VFunction r →
     isDispatching w = false → (∀ l, l ∈ registry w → quiet code l) →
     length (registry w) + 2 ≤ fuel →
     ∃ w', dispatch code fuel INIT w = Some (Normal INIT, w') ∧
           currentState w' = f (currentState w) INIT ∧
           log w' = log w ++
             ReducerCalled true (currentState w) INIT ::
             StateAssigned (f (currentState w) INIT) ::
             map (ListenerCalled (passes w) false) (registry w)).
Proof.
  split; [apply valid_INIT|]. split; [|split].
  - intros a [Hp Ht]. unfold dispatch_guard. rewrite Hp. cbn.
    apply String.eqb_neq in Ht. by rewrite Ht.
  - intros a n [Hp Ht] Hflag. rewrite dispatch_S.
    by rewrite (proj2 (dispatch_guard_None a w)).
  - intros r f fuel Hpure Hr Hflag Hq Hfuel.
    eexists. split; [by apply (dispatch_quiet code r f INIT w fuel Hpure Hr valid_INIT)|].
    destruct (quietly_dispatched_fields (f (currentState w) INIT) INIT (registry w) w)
      as (_ & Hs & _ & _ & _ & _ & _ & _ & Hl).
    done.
Qed.

Lemma dispatch_has_no_case_for_INIT_witness :
  ∃ w', dispatch Samples.sample_code 4 INIT
          (Samples.subscribed [1; 1] (Samples.store_with 0)) =
          Some (Normal INIT, w') ∧
        currentState w' = VNumber 1 ∧
        called_in 1 (log w') = [1; 1].
Proof.
  destruct (dispatch_has_no_case_for_INIT Samples.sample_code
              (Samples.subscribed [1; 1] (Samples.store_with 0)))
    as (_ & _ & _ & H).
  destruct (H 0 Samples.count 4) as (w' & Hd & Hs & Hl).
  - intros s a. reflexivity.
  - reflexivity.
  - reflexivity.
  - intros l Hl. exists VUndefined.
    apply list_elem_of_In in Hl. cbn in Hl.
    destruct Hl as [<-|[<-|[]]]; reflexivity.
  - cbn. lia.
  - exists w'. split; [exact Hd|]. split; [exact Hs|]. rewrite Hl. reflexivity.
Defined.

(** C7. The flag is set exactly while the reducer runs: a new store has
    it clear, every complete call leaves it as it found it, and a dispatch
    started with the flag clear calls reducers with the flag set and
    listeners with the flag clear.  The check on the flag throws exactly
    when the flag is set, so a dispatch made while no reducer runs, such
    as one made by a listener during the pass, does not take that
    branch. *)
Theorem flag_is_set_only_while_reducer_runs code fuel :
  (∀ reducer preloadedState enhancer w,
     createStore code fuel reducer preloadedState enhancer =
       Some (Normal (StoreOf w)) →
     isDispatching w = false) ∧
  (∀ p w o w', exec code fuel p w = Some (o, w') →
     isDispatching w' = isDispatching w) ∧
  (∀ a w o w', dispatch code fuel a w = Some (o, w') →
     isDispatching w' = isDispatching w ∧
     ∃ evs, log w' = log w ++ evs ∧
       Forall (λ e, match e with
                    | ReducerCalled d _ _ => d = true
                    | ListenerCalled _ d _ => d = false
                    | StateAssigned _ => True
                    end) evs ∧
       (isDispatching w = true → evs = [])) ∧
  (∀ a w, isDispatching w = false → dispatch_guard a w ≠ Some ReentrancyError) ∧
  (∀ a w, valid_action a → isDispatching w = true →
     dispatch_guard a w = Some ReentrancyError).
Proof.
  split; [|split; [|split; [|split]]].
  - intros reducer preloadedState enhancer w H.
    by apply createStore_wf in H as [_ ?].
  - intros p w o w' H. by apply (proj1 (run_ext code fuel)) in H as (_ & F & _).
  - intros a w o w' H.
    apply (proj1 (proj2 (run_ext code fuel))) in H as (E & F & Q).
    split; [done|]. destruct E as [_ _ _ _ (evs & L & O & _) _].
    exists evs. repeat split; [done | |].
    + eapply Forall_impl; [exact O|]. intros [d ? ?| |q d l]; cbn; tauto.
    + intros Hd. destruct (Q Hd) as [HL _]. rewrite HL in L.
      rewrite <- (app_nil_r (log w)) in L at 1. by apply app_inv_head in L.
  - intros a w Hflag. unfold dispatch_guard, ReentrancyError. rewrite Hflag.
    destruct (isPlainObject a); cbn; [|discriminate].
    destruct (String.eqb _ _); discriminate.
  - intros a w [Hp Ht] Hflag. unfold dispatch_guard. rewrite Hp, Hflag. cbn.
    apply String.eqb_neq in Ht. by rewrite Ht.
Qed.

(** A listener that dispatches during the pass: the nested dispatch goes
    through, and the state is assigned twice. *)
Lemma flag_is_set_only_while_reducer_runs_witness :
  ∃ w', dispatch Samples.sample_code 8 Samples.INCREMENT
          (Samples.subscribed [7] (Samples.store_with 0)) =
          Some (Normal Samples.INCREMENT, w') ∧
        isDispatching w' = false ∧
        currentState w' = VNumber 2.
Proof.
  eexists. split; [vm_compute; reflexivity|]. split; [|reflexivity].
  destruct (flag_is_set_only_while_reducer_runs Samples.sample_code 8)
    as (_ & _ & H & _).
  refine (proj1 (H Samples.INCREMENT
                   (Samples.subscribed [7] (Samples.store_with 0)) _ _ _)).
  vm_compute. reflexivity.
Defined.

(** *** Passes over counting listeners *)

Lemma drop_cons_inv {A : Type} (xs : list A) i x rest :
  drop i xs = x :: rest → xs !! i = Some x ∧ drop (S i) xs = rest.
Proof.
  intros H. assert (Hx : xs !! i = Some x).
  { rewrite <- (Nat.add_0_r i), <- lookup_drop, H. reflexivity. }
  split; [done|]. rewrite (drop_S _ _ _ Hx) in H. by injection H.
Qed.

Lemma called_in_calls p ls :
  called_in p (map (ListenerCalled p false) ls) = ls.
Proof.
  induction ls as [|l ls IH]; [reflexivity|].
  unfold called_in in *. cbn. by rewrite Nat.eqb_refl, IH.
Qed.

Lemma occurrences_cons l x xs :
  occurrences l (x :: xs) = (if Nat.eqb x l then 1 else 0) + occurrences l xs.
Proof.
  unfold occurrences. rewrite filter_cons.
  destruct (Nat.eqb_spec x l) as [->|Hne].
  - by rewrite decide_True.
  - by rewrite decide_False.
Qed.

Lemma counted_fields c p ls :
  ∀ w0,
    let w' := fold_left (Counting.after_call c p) ls w0 in
    currentReducer w' = currentReducer w0 ∧ currentState w' = currentState w0 ∧
    nextListeners w' = nextListeners w0 ∧ arrays w' = arrays w0 ∧
    isDispatching w' = isDispatching w0 ∧
    log w' = log w0 ++ map (ListenerCalled p false) ls ∧
    outside w' = Nat.iter (occurrences c ls) Counting.bump (outside w0).
Proof.
  induction ls as [|l ls IH]; intros w0; cbn [fold_left].
  - cbn. rewrite app_nil_r. repeat split.
  - destruct (IH (Counting.after_call c p w0 l)) as (-> & -> & -> & -> & -> & -> & ->).
    rewrite occurrences_cons. unfold Counting.after_call. cbv zeta.
    destruct (Nat.eqb_spec l c) as [->|Hne]; simpl_store.
    + repeat split; [by rewrite <- app_assoc|].
      change (1 + occurrences c ls) with (S (occurrences c ls)).
      by rewrite Nat.iter_succ_r.
    + repeat split. by rewrite <- app_assoc.
Qed.

(** A pass over listeners that count or return at once calls them all. *)
Lemma notify_counting code (c : FunRef) ls pass fuel :
  Counting.counts code c →
  ∀ i w,
    (∀ l, l ∈ drop i (array_at ls w) → l ≠ c → quiet code l) →
    isDispatching w = false →
    length (drop i (array_at ls w)) + 3 ≤ fuel →
    notify code fuel ls i pass w =
    Some (Normal VUndefined,
          fold_left (Counting.after_call c pass) (drop i (array_at ls w)) w).
Proof.
  intros Hc. induction fuel as [|n IH]; intros i w Hq Hflag Hfuel; [lia|].
  rewrite notify_S. destruct (array_at ls w !! i) as [l|] eqn:Hi.
  - rewrite (drop_S _ _ _ Hi) in *. cbn in Hfuel. cbn [fold_left].
    unfold call_listener, Counting.after_call. rewrite Hflag.
    destruct n as [|[|[|m]]]; try lia.
    destruct (Nat.eqb_spec l c) as [->|Hne].
    + rewrite Hc. unfold Counting.counter. cbn [exec].
      rewrite IH; [done| |done|].
      * intros l' Hl'. apply Hq. by right.
      * change (array_at ls (set_outside _ _)) with (array_at ls w). lia.
    + destruct (Hq l) as [v Hv]; [left|done|]. rewrite Hv. cbn [exec].
      rewrite IH; [done| |done|].
      * intros l' Hl'. apply Hq. by right.
      * change (array_at ls (record _ w)) with (array_at ls w). lia.
  - rewrite drop_ge; [done|]. by apply lookup_ge_None.
Qed.

(** A pass stops at the first listener that throws: the listeners before
    it have been called, the ones after it are not, and the pass throws
    what that listener threw. *)
Lemma notify_throwing code (c t : FunRef) (e : Exn) ls pass post :
  Counting.counts code c → code t [] = Throw e →
  ∀ pre fuel i w,
    drop i (array_at ls w) = pre ++ t :: post →
    (∀ l, l ∈ pre → l ≠ c → quiet code l) →
    isDispatching w = false →
    length pre + 4 ≤ fuel →
    notify code fuel ls i pass w =
    Some (Abrupt e,
          record (ListenerCalled pass false t)
            (fold_left (Counting.after_call c pass) pre w)).
Proof.
  intros Hc Ht. induction pre as [|l pre IH]; intros fuel i w Hd Hq Hflag Hfuel.
  - destruct fuel as [|[|m]]; [cbn in Hfuel; lia|cbn in Hfuel; lia|].
    apply drop_cons_inv in Hd as [Hi _].
    rewrite notify_S, Hi. unfold call_listener. rewrite Ht, Hflag. reflexivity.
  - cbn in Hd. apply drop_cons_inv in Hd as [Hi Hd].
    destruct fuel as [|[|[|[|m]]]]; try (cbn in Hfuel; lia).
    rewrite notify_S, Hi. cbn [fold_left].
    unfold call_listener, Counting.after_call. rewrite Hflag.
    destruct (Nat.eqb_spec l c) as [->|Hne].
    + rewrite Hc. unfold Counting.counter. cbn [exec].
      rewrite (IH _ (S i)); [done|done| |done|cbn in Hfuel; cbn; lia].
      intros l' Hl'. apply Hq. by right.
    + destruct (Hq l) as [v Hv]; [left|done|]. rewrite Hv. cbn [exec].
      rewrite (IH _ (S i)); [done|done| |done|cbn in Hfuel; cbn; lia].
      intros l' Hl'. apply Hq. by right.
Qed.

(** With a pure reducer and listeners that count or return at once,
    [dispatch] of a valid action returns the action, given fuel for the
    reducer and for the calls of the listeners. *)
Lemma dispatch_counting code r f c a w fuel :
  pure_reducer code r f → currentReducer w = VFunction r →
  valid_action a → isDispatching w = false →
  Counting.counts code c →
  (∀ l, l ∈ registry w → l ≠ c → quiet code l) →
  length (registry w) + 4 ≤ fuel →
  dispatch code fuel a w =
  Some (Normal a, Counting.counted_pass c (f (currentState w) a) a (registry w) w).
Proof.
  intros Hpure Hr [Hplain Htype] Hflag Hc Hq Hfuel.
  destruct fuel as [|[|m]]; [lia|lia|].
  rewrite dispatch_S.
  rewrite (proj2 (dispatch_guard_None a w)) by done.
  unfold call_reducer. simpl_store. rewrite Hr, Hpure. cbn [exec].
  set (w1 := record _ (set_isDispatching true w)).
  set (w3 := start_pass _).
  assert (Harr : array_at (nextListeners w1) w3 = registry w) by reflexivity.
  rewrite (notify_counting code c _ _ (S m) Hc 0 w3);
    rewrite ?Harr, ?drop_0; try done.
  cbn in Hfuel. lia.
Qed.

(** ... and when a listener throws, [dispatch] throws the same, after the
    state has been assigned and the listeners before that one have been
    called. *)
Lemma dispatch_listener_threw code r f c t e pre post a w fuel :
  pure_reducer code r f → currentReducer w = VFunction r →
  valid_action a → isDispatching w = false →
  Counting.counts code c → code t [] = Throw e →
  registry w = pre ++ t :: post →
  (∀ l, l ∈ pre → l ≠ c → quiet code l) →
  length pre + 5 ≤ fuel →
  dispatch code fuel a w =
  Some (Abrupt e,
        record (ListenerCalled (passes w) false t)
          (Counting.counted_pass c (f (currentState w) a) a pre w)).
Proof.
  intros Hpure Hr [Hplain Htype] Hflag Hc Ht Hreg Hq Hfuel.
  destruct fuel as [|[|m]]; [lia|lia|].
  rewrite dispatch_S.
  rewrite (proj2 (dispatch_guard_None a w)) by done.
  unfold call_reducer. simpl_store. rewrite Hr, Hpure. cbn [exec].
  set (w1 := record _ (set_isDispatching true w)).
  set (w3 := start_pass _).
  assert (Harr : array_at (nextListeners w1) w3 = registry w) by reflexivity.
  rewrite (notify_throwing code c t e _ _ post Hc Ht pre (S m) 0 w3);
    rewrite ?Harr, ?drop_0; try done.
  lia.
Qed.

Lemma counted_pass_fields c s a ls w :
  let w' := Counting.counted_pass c s a ls w in
  currentReducer w' = currentReducer w ∧ currentState w' = s ∧
  nextListeners w' = nextListeners w ∧ arrays w' = arrays w ∧
  isDispatching w' = false ∧
  log w' = log w ++ ReducerCalled true (currentState w) a :: StateAssigned s ::
             map (ListenerCalled (passes w) false) ls ∧
  outside w' = Nat.iter (occurrences c ls) Counting.bump (outside w).
Proof.
  unfold Counting.counted_pass.
  destruct (counted_fields c (passes w) ls
              (start_pass (set_isDispatching false (assign_state s
                 (record (ReducerCalled true (currentState w) a)
                    (set_isDispatching true w))))))
    as (-> & -> & -> & -> & -> & -> & ->).
  cbn. repeat split. by rewrite <- !app_assoc.
Qed.

Lemma store_with_wf r : wf (Samples.store_with r).
Proof.
  unfold Samples.store_with.
  destruct (createStore _ _ _ _ _) as [[[w|]|]|] eqn:H;
    try apply initialStore_wf.
  by apply createStore_wf in H as [? _].
Qed.

Lemma subscribed_wf ls : ∀ w, wf w → wf (Samples.subscribed ls w).
Proof.
  induction ls as [|l ls IH]; intros w Hwf; [done|].
  cbn. apply IH. exact (ev_wf _ _ _ (subscribe_evolves 0 (VFunction l) w) Hwf).
Qed.

(** C5. When the reducer throws, [dispatch] throws the same error with
    the flag cleared, the state is the one before the call, no listener
    has been called, and a next dispatch is not refused.  When the reducer
    returned and a listener throws, [dispatch] throws that listener's
    error and leaves the store as that listener left it: the state has
    been assigned and is not restored, the listeners up to the one that
    threw have been called, and the ones after it have not.  The last
    part shows it on listeners whose calls can be counted: with a pure
    reducer and the listeners [pre], then one that throws [e], then
    [post] subscribed, [dispatch] throws [e]; the state is the reducer's
    result, the counter has one count per counting listener of [pre] and
    none for [post], and a next dispatch is not refused. *)
Theorem dispatch_clears_flag_and_propagates code n a (w : Store) :
  wf w → dispatch_guard a w = None →
  (∀ e w1,
     call_reducer code (exec code n) a (set_isDispatching true w) =
       Some (Abrupt e, w1) →
     ∃ w', dispatch code (S n) a w = Some (Abrupt e, w') ∧
       isDispatching w' = false ∧
       currentState w' = currentState w ∧
       (log w' = log w ∨
        log w' = log w ++ [ReducerCalled true (currentState w) a]) ∧
       ∀ b, valid_action b → dispatch_guard b w' = None) ∧
  (∀ s w1 e w',
     call_reducer code (exec code n) a (set_isDispatching true w) =
       Some (Normal s, w1) →
     dispatch code (S n) a w = Some (Abrupt e, w') →
     isDispatching w' = false ∧
     ∃ evs j l m wk,
       log w' = log w1 ++ StateAssigned s :: evs ∧
       currentState w' = assigned evs s ∧
       registry w1 !! j = Some l ∧
       called_in (passes w1) evs = take (S j) (registry w1) ∧
       call_listener code (exec code m) (passes w1) l wk = Some (Abrupt e, w')) ∧
  (∀ r g c t e pre post fuel,
     pure_reducer code r g → currentReducer w = VFunction r →
     Counting.counts code c → code t [] = Throw e →
     registry w = pre ++ t :: post →
     (∀ l, l ∈ pre → l ≠ c → quiet code l) →
     length pre + 5 ≤ fuel →
     ∃ w', dispatch code fuel a w = Some (Abrupt e, w') ∧
       isDispatching w' = false ∧
       currentState w' = g (currentState w) a ∧
       outside w' = Nat.iter (occurrences c pre) Counting.bump (outside w) ∧
       log w' = log w ++ ReducerCalled true (currentState w) a ::
                  StateAssigned (g (currentState w) a) ::
                  map (ListenerCalled (passes w) false) (pre ++ [t]) ∧
       ∀ b, valid_action b → dispatch_guard b w' = None).
Proof.
  intros Hwf Hg. split; [|split].
  - intros e w1 Hc.
    destruct (dispatch_reducer_threw code n a w e w1 Hg Hc) as (Hd & Hs & _ & Hl).
    exists (set_isDispatching false w1). repeat split; try done.
    intros b [Hp Ht]. by apply dispatch_guard_None.
  - intros s w1 e w' Hc Hd.
    destruct (dispatch_returned code n a w s w1 _ _ Hwf Hg Hc Hd)
      as (evs & k & L & St & F & _ & C & (j & l & m & wk & -> & Hl & Hcall)).
    split; [done|]. by exists evs, j, l, m, wk.
  - intros r g c t e pre post fuel Hpure Hr Hc Ht Hreg Hq Hfuel.
    apply dispatch_guard_None in Hg as (Hp & Hty & Hflag).
    eexists. split.
    { by apply (dispatch_listener_threw code r g c t e pre post a w fuel). }
    destruct (counted_pass_fields c (g (currentState w) a) a pre w)
      as (_ & Hs & _ & _ & Hf & Hl & Ho).
    simpl_store. repeat split; try done.
    + rewrite Hl, map_app, <- !app_assoc. reflexivity.
    + intros b [Hpb Htb]. by apply dispatch_guard_None.
Qed.

(** Listeners 10, 3, 10, of which 10 counts its calls and 3 throws: the
    dispatch throws, the state is 1, and the counter is at 1. *)
Lemma dispatch_clears_flag_and_propagates_witness :
  ∃ w', dispatch Counting.counting_code 6 Samples.INCREMENT
          (Samples.subscribed [10; 3; 10] (Samples.store_with 0)) =
          Some (Abrupt (Error "listener failed"), w') ∧
        isDispatching w' = false ∧
        currentState w' = VNumber 1 ∧
        outside w' = VNumber 1.
Proof.
  pose (w := Samples.subscribed [10; 3; 10] (Samples.store_with 0)).
  assert (Hwf : wf w) by apply subscribed_wf, store_with_wf.
  destruct (dispatch_clears_flag_and_propagates Counting.counting_code 5
              Samples.INCREMENT w Hwf eq_refl) as (_ & _ & H).
  destruct (H 0 Samples.count 10 3 (Error "listener failed") [10] [10] 6)
    as (w' & Hd & Hf & Hs & Ho & _).
  - intros s a. reflexivity.
  - reflexivity.
  - reflexivity.
  - reflexivity.
  - reflexivity.
  - intros l Hl Hne. apply list_elem_of_singleton in Hl. done.
  - cbn. lia.
  - exists w'. split; [exact Hd|]. split; [exact Hf|].
    split; [exact Hs | exact Ho].
Defined.

(** C2. The pass of a dispatch calls, in order, the contents that the
    [nextListeners] array had when the reducer returned, whatever the
    listeners subscribe or unsubscribe meanwhile, and that array object is
    never written to; an aborted pass calls a prefix of it.  [subscribe]
    and the removal closures change the [nextListeners] contents at once,
    so that the next pass, which takes them as they are when it begins,
    has every completed change: a subscribed listener is at the end, and
    a removed subscription is one occurrence less, none at all when it was
    the listener's only subscription. *)
Theorem pass_calls_the_snapshot code n a (w : Store) s w1 o w' :
  wf w → dispatch_guard a w = None →
  call_reducer code (exec code n) a (set_isDispatching true w) =
    Some (Normal s, w1) →
  dispatch code (S n) a w = Some (o, w') →
  (∃ evs k,
     log w' = log w1 ++ StateAssigned s :: evs ∧
     called_in (passes w1) evs = take k (registry w1) ∧
     (o = Normal a → called_in (passes w1) evs = registry w1) ∧
     array_at (nextListeners w1) w' = registry w1) ∧
  (∀ wm f, wf wm →
     registry (subscribe (VFunction f) wm).2 = registry wm ++ [f] ∧
     snapshot (subscribe (VFunction f) wm).2 = snapshot wm) ∧
  (∀ wm h u, wf wm → unsubscribers wm !! h = Some u → isSubscribed u = true →
     snapshot (unsubscribe h wm) = snapshot wm ∧
     occurrences (listener u) (registry (unsubscribe h wm)) + 1 =
       occurrences (listener u) (registry wm) ∧
     (live (listener u) (unsubscribers wm) = 1 →
        listener u ∉ registry (unsubscribe h wm))).
Proof.
  intros Hwf Hg Hc Hd. split; [|split].
  - destruct (dispatch_returned code n a w s w1 _ _ Hwf Hg Hc Hd)
      as (evs & k & L & _ & _ & A & C & R).
    exists evs, k. repeat split; try done.
    intros ->. destruct R as [_ ->]. by rewrite C, firstn_all.
  - intros wm f [H1 H2 H3]. split; [by apply subscribe_registry|].
    rewrite subscribe_function. cbn [snd]. unfold snapshot.
    erewrite (array_at_write _ (ensureCanMutateNextListeners wm)) by reflexivity.
    simpl_store. destruct (ensure_fields wm) as (Hcur & _).
    rewrite decide_False.
    + rewrite Hcur. by apply ensure_old.
    + intros [Heq _]. revert Heq. by apply ensure_split.
  - intros wm h u Hwm Hh Hs.
    destruct (unsubscribe_registry h u wm Hwm Hh Hs)
      as (i & Hi & _ & _ & Hdel & _ & _ & Hsnap).
    pose proof (occurrences_delete (listener u) _ _ _ Hi) as Ho.
    rewrite decide_True in Ho by done. rewrite <- Hdel in Ho.
    repeat split; [done | lia |].
    intros Hlive. pose proof (wf_live _ Hwm (listener u)) as Hocc.
    rewrite occurrences_pos. lia.
Qed.

(** Listeners 1, 2, 1, where 2 calls the removal closure of the first 1:
    the pass in flight calls all three, and the array for the next pass
    holds 2 and 1. *)
Lemma pass_calls_the_snapshot_witness :
  ∃ w' evs,
    dispatch Samples.sample_code 6 Samples.INCREMENT
      (Samples.subscribed [1; 2; 1] (Samples.store_with 0)) =
      Some (Normal Samples.INCREMENT, w') ∧
    called_in 1 evs = [1; 2; 1] ∧
    snapshot w' = [1; 2; 1] ∧
    registry w' = [2; 1].
Proof.
  pose (w := Samples.subscribed [1; 2; 1] (Samples.store_with 0)).
  assert (Hwf : wf w) by apply subscribed_wf, store_with_wf.
  edestruct (pass_calls_the_snapshot Samples.sample_code 5 Samples.INCREMENT w)
    as ((evs & k & L & C & R & A) & _);
    [exact Hwf | reflexivity | vm_compute; reflexivity | vm_compute; reflexivity |].
  eexists. exists evs. split; [vm_compute; reflexivity|].
  split; [exact (R eq_refl)|]. split; reflexivity.
Defined.

Lemma subscribe_fields f w :
  let w' := (subscribe (VFunction f) w).2 in
  isDispatching w' = isDispatching w ∧ currentReducer w' = currentReducer w ∧
  currentState w' = currentState w ∧ passes w' = passes w ∧ log w' = log w ∧
  unsubscribers w' =
    unsubscribers w ++ [{| listener := f; isSubscribed := true |}].
Proof.
  rewrite subscribe_function. simpl_store.
  destruct (ensure_fields w) as (_ & _ & ? & ? & ? & ? & ?). done.
Qed.

Lemma subscribe_times_spec l n :
  ∀ w, wf w →
    let w' := subscribe_times n (VFunction l) w in
    wf w' ∧ registry w' = registry w ++ replicate n l ∧
    isDispatching w' = isDispatching w ∧ currentReducer w' = currentReducer w ∧
    currentState w' = currentState w ∧ passes w' = passes w ∧ log w' = log w.
Proof.
  induction n as [|n IH]; intros w Hwf; cbn [subscribe_times replicate].
  - by rewrite app_nil_r.
  - destruct (IH (subscribe (VFunction l) w).2)
      as (W & R & F & Rd & St & P & L).
    { exact (ev_wf _ _ _ (subscribe_evolves 0 (VFunction l) w) Hwf). }
    destruct (subscribe_fields l w) as (F' & Rd' & St' & P' & L' & _).
    split; [done|]. split; [|repeat split; congruence].
    rewrite R, subscribe_registry by apply Hwf. by rewrite <- app_assoc.
Qed.


Lemma occurrences_replicate l n : occurrences l (replicate n l) = n.
Proof.
  induction n as [|n IH]; [reflexivity|].
  change (replicate (S n) l) with ([l] ++ replicate n l).
  unfold occurrences in *. rewrite filter_app, length_app, IH.
  rewrite filter_cons, decide_True by done. reflexivity.
Qed.

Lemma occurrences_app l xs ys :
  occurrences l (xs ++ ys) = occurrences l xs + occurrences l ys.
Proof. unfold occurrences. by rewrite filter_app, length_app. Qed.

Lemma subscribe_times_outside l n :
  ∀ w, outside (subscribe_times n (VFunction l) w) = outside w.
Proof.
  induction n as [|n IH]; intros w; [reflexivity|].
  cbn [subscribe_times]. rewrite IH, subscribe_function. simpl_store.
  unfold ensureCanMutateNextListeners. by destruct (Nat.eqb _ _).
Qed.

(** C3. A dispatch made after subscribing [l] [n] more times calls [l]
    [n] more times in its pass: when [l] adds one to a counter at each
    call, the reducer is pure and the other listeners return at once, the
    dispatch returns and the counter has gone up by the number of
    subscriptions of [l], [n] when it had none before; and whatever the
    listeners do, a dispatch that returns has recorded that many calls of
    [l].  [subscribe] hands out a new removal closure for the listener.
    The first call of a removal closure splits [nextListeners] from
    [currentListeners] and deletes from it the first occurrence of its
    listener, one occurrence and no other element; any later call of the
    same closure, at any later time, changes nothing. *)
Theorem subscriptions_are_counted_and_removed_once code :
  (∀ r f l n w a fuel,
     wf w → isDispatching w = false →
     pure_reducer code r f → currentReducer w = VFunction r → valid_action a →
     Counting.counts code l →
     (∀ l', l' ∈ registry w → l' ≠ l → quiet code l') →
     length (registry w) + n + 4 ≤ fuel →
     ∃ w',
       dispatch code fuel a (subscribe_times n (VFunction l) w) =
         Some (Normal a, w') ∧
       outside w' =
         Nat.iter (occurrences l (registry w) + n) Counting.bump (outside w) ∧
       ∃ evs, log w' = log w ++ evs ∧
         called_in (passes w) evs = registry w ++ replicate n l) ∧
  (∀ r f l n w a fuel w',
     wf w → isDispatching w = false →
     pure_reducer code r f → currentReducer w = VFunction r → valid_action a →
     dispatch code fuel a (subscribe_times n (VFunction l) w) = Some (Normal a, w') →
     ∃ evs, log w' = log w ++ evs ∧
       occurrences l (called_in (passes w) evs) = occurrences l (registry w) + n) ∧
  (∀ w l,
     (subscribe (VFunction l) w).1 = Normal (length (unsubscribers w)) ∧
     unsubscribers (subscribe (VFunction l) w).2 !! length (unsubscribers w) =
       Some {| listener := l; isSubscribed := true |}) ∧
  (∀ w h u, wf w → unsubscribers w !! h = Some u → isSubscribed u = true →
     ∃ i, registry w !! i = Some (listener u) ∧
          (listener u ∉ take i (registry w)) ∧
          registry (unsubscribe h w) = delete i (registry w) ∧
          nextListeners (unsubscribe h w) ≠ currentListeners (unsubscribe h w) ∧
          snapshot (unsubscribe h w) = snapshot w ∧
          (∀ l, occurrences l (registry (unsubscribe h w)) +
                  (if decide (listener u = l) then 1 else 0) =
                occurrences l (registry w)) ∧
          ∀ p w2, evolves p (unsubscribe h w) w2 → unsubscribe h w2 = w2).
Proof.
  split; [|split; [|split]].
  - intros r f l n w a fuel Hwf Hflag Hpure Hr Ha Hc Hq Hfuel.
    destruct (subscribe_times_spec l n w Hwf) as (W & R & F & Rd & St & P & L).
    pose proof (subscribe_times_outside l n w) as O.
    set (wn := subscribe_times n (VFunction l) w) in *.
    eexists. split.
    { apply (dispatch_counting code r f l a wn fuel); try done; try congruence.
      - intros l' Hin Hne. rewrite R in Hin. apply elem_of_app in Hin as [Hin|Hin].
        + by apply Hq.
        + apply elem_of_replicate in Hin as [-> _]. done.
      - rewrite R, length_app, length_replicate. lia. }
    destruct (counted_pass_fields l (f (currentState wn) a) a (registry wn) wn)
      as (_ & _ & _ & _ & _ & Hl & Ho).
    split.
    + rewrite Ho, O, R, occurrences_app, occurrences_replicate. reflexivity.
    + eexists. split; [rewrite Hl, L; reflexivity|].
      change (called_in (passes w) (ReducerCalled true (currentState wn) a ::
                StateAssigned (f (currentState wn) a) ::
                map (ListenerCalled (passes wn) false) (registry wn)))
        with (called_in (passes w)
                (map (ListenerCalled (passes wn) false) (registry wn))).
      by rewrite P, called_in_calls, R.
  - intros r f l n w a fuel w' Hwf Hflag Hpure Hr Ha Hd.
    destruct (subscribe_times_spec l n w Hwf) as (W & R & F & Rd & St & P & L).
    set (wn := subscribe_times n (VFunction l) w) in *.
    assert (Hg : dispatch_guard a wn = None).
    { apply dispatch_guard_None. destruct Ha. repeat split; congruence. }
    destruct fuel as [|[|m]].
    + cbn in Hd. by rewrite Hg in Hd.
    + rewrite dispatch_S, Hg in Hd. unfold call_reducer in Hd. simpl_store.
      rewrite Rd, Hr, Hpure in Hd. done.
    + assert (Hc : call_reducer code (exec code (S m)) a (set_isDispatching true wn) =
                   Some (Normal (f (currentState wn) a),
                         record (ReducerCalled true (currentState wn) a)
                           (set_isDispatching true wn))).
      { unfold call_reducer. simpl_store. by rewrite Rd, Hr, Hpure. }
      destruct (dispatch_returned code (S m) a wn _ _ _ _ W Hg Hc Hd)
        as (evs & k & Lg & _ & _ & _ & C & (_ & ->)).
      change (registry (record _ (set_isDispatching true wn))) with (registry wn) in C.
      simpl_store. rewrite firstn_all in C.
      exists (ReducerCalled true (currentState wn) a ::
              StateAssigned (f (currentState wn) a) :: evs).
      split.
      * rewrite Lg, L, <- app_assoc. reflexivity.
      * change (called_in (passes w) (ReducerCalled true (currentState wn) a ::
                  StateAssigned (f (currentState wn) a) :: evs))
          with (called_in (passes w) evs).
        rewrite <- P, C, R, occurrences_app, occurrences_replicate. reflexivity.
  - intros w l. rewrite subscribe_function. simpl_store. split; [done|].
    by apply list_lookup_middle.
  - intros w h u Hwf Hh Hs.
    destruct (unsubscribe_registry h u w Hwf Hh Hs)
      as (i & Hi & Hpre & _ & Hdel & Hsplit & _ & Hsnap).
    exists i. repeat split; try done.
    + intros l. rewrite Hdel. symmetry. by apply occurrences_delete.
    + intros p w2 E. apply unsubscribe_again. intros u2 Hu2.
      assert (Hoff : unsubscribers (unsubscribe h w) !! h =
                     Some {| listener := listener u; isSubscribed := false |}).
      { rewrite (unsubscribe_first h u w Hh Hs). simpl_store.
        apply list_lookup_insert_eq. by eapply lookup_lt_Some. }
      destruct (ev_unsub _ _ _ E _ _ Hoff) as (u' & Hu' & _ & Hsub).
      rewrite Hu2 in Hu'. injection Hu' as <-.
      destruct (isSubscribed u2); [by specialize (Hsub eq_refl) | done].
Qed.

(** Subscribing the counting listener 10 twice: the dispatch returns
    with the counter at 2; after one removal one subscription is left. *)
Lemma subscriptions_are_counted_and_removed_once_witness :
  (∃ w',
     dispatch Counting.counting_code 6 Samples.INCREMENT
       (subscribe_times 2 (VFunction 10) (Samples.store_with 0)) =
       Some (Normal Samples.INCREMENT, w') ∧
     outside w' = VNumber 2) ∧
  registry (unsubscribe 0 (subscribe_times 2 (VFunction 10) (Samples.store_with 0)))
    = [10].
Proof.
  destruct (subscriptions_are_counted_and_removed_once Counting.counting_code)
    as (Ha & _ & _ & Hc).
  split.
  - destruct (Ha 0 Samples.count 10 2 (Samples.store_with 0) Samples.INCREMENT 6)
      as (w' & Hd & Ho & _).
    + apply store_with_wf.
    + reflexivity.
    + intros s a. reflexivity.
    + reflexivity.
    + split; [reflexivity | cbn; discriminate].
    + reflexivity.
    + intros l' Hin. by apply elem_of_nil in Hin.
    + cbn. lia.
    + exists w'. split; [exact Hd | exact Ho].
  - edestruct (Hc (subscribe_times 2 (VFunction 10) (Samples.store_with 0)) 0)
      as (i & Hi & Hpre & Hdel & _).
    + apply subscribe_times_spec, store_with_wf.
    + reflexivity.
    + reflexivity.
    + reflexivity.
Defined.

Lemma dispatch_guard_dispatching a w :
  valid_action a → isDispatching w = true →
  dispatch_guard a w = Some ReentrancyError.
Proof.
  intros [Hp Ht] Hflag. unfold dispatch_guard. rewrite Hp, Hflag. cbn.
  apply String.eqb_neq in Ht. by rewrite Ht.
Qed.

(** C6, as the code has it.  A dispatch of a valid action made while the
    flag is set (that is, from inside a reducer) throws the re-entrancy
    error and leaves the store, its state included, untouched.  When the
    reducer catches that error and returns [v], the outer dispatch assigns
    [v] and goes on to its pass; when the reducer lets the error through,
    the outer dispatch throws it, with the flag cleared and the state
    unchanged. *)
Theorem reducer_may_not_dispatch code :
  (∀ fuel b w, valid_action b → isDispatching w = true →
     dispatch code fuel b w = Some (Abrupt ReentrancyError, w)) ∧
  (∀ a b k r (w : Store) fuel,
     currentReducer w = VFunction r → dispatch_guard a w = None →
     valid_action b → code r [currentState w; a] = Dispatch b k →
     (∀ v, k (Abrupt ReentrancyError) = Return v →
        (∀ l, l ∈ registry w → quiet code l) →
        length (registry w) + 3 ≤ fuel →
        dispatch code fuel a w =
          Some (Normal a, quietly_dispatched v a (registry w) w) ∧
        currentState (quietly_dispatched v a (registry w) w) = v) ∧
     (∀ e, k (Abrupt ReentrancyError) = Throw e → 3 ≤ fuel →
        ∃ w', dispatch code fuel a w = Some (Abrupt e, w') ∧
          isDispatching w' = false ∧
          currentState w' = currentState w ∧
          log w' = log w ++ [ReducerCalled true (currentState w) a])).
Proof.
  split.
  - intros fuel b w Hb Hflag. apply dispatch_rejected.
    by apply dispatch_guard_dispatching.
  - intros a b k r w fuel Hr Hg Hb Hcode.
    set (wr := record (ReducerCalled true (currentState w) a)
                 (set_isDispatching true w)).
    assert (Hnested : ∀ m, dispatch code m b wr = Some (Abrupt ReentrancyError, wr)).
    { intros m. apply dispatch_rejected. by apply dispatch_guard_dispatching. }
    split.
    + intros v Hk Hq Hfuel. split;
        [|by destruct (quietly_dispatched_fields v a (registry w) w) as (_ & ? & _)].
      destruct fuel as [|[|[|m]]]; try lia.
      rewrite dispatch_S, Hg. unfold call_reducer. simpl_store.
      rewrite Hr, Hcode. fold wr. rewrite exec_S, Hnested, Hk. cbn [exec].
      apply dispatch_guard_None in Hg as (_ & _ & Hflag).
      set (w3 := start_pass _).
      assert (Harr : array_at (nextListeners wr) w3 = registry w) by reflexivity.
      rewrite (notify_quiet code _ _ (S (S m)) 0 w3); rewrite ?Harr, ?drop_0; try done.
      cbn in Hfuel. lia.
    + intros e Hk Hfuel. destruct fuel as [|[|[|m]]]; try lia.
      exists (set_isDispatching false wr).
      rewrite dispatch_S, Hg. unfold call_reducer. simpl_store.
      rewrite Hr, Hcode. fold wr. rewrite exec_S, Hnested, Hk. cbn [exec].
      done.
Qed.

(** Reducer 4 dispatches, catches the error and returns 7. *)
Lemma reducer_may_not_dispatch_witness :
  dispatch Samples.sample_code 3 Samples.INCREMENT (Samples.store_with 4) =
    Some (Normal Samples.INCREMENT,
          quietly_dispatched (VNumber 7) Samples.INCREMENT []
            (Samples.store_with 4)) ∧
  currentState (quietly_dispatched (VNumber 7) Samples.INCREMENT []
                  (Samples.store_with 4)) = VNumber 7.
Proof.
  destruct (reducer_may_not_dispatch Samples.sample_code) as [_ H].
  edestruct (H Samples.INCREMENT Samples.INCREMENT
               (λ r, match r with
                     | Abrupt _ => Return (VNumber 7)
                     | Normal v => Return v
                     end)
               4 (Samples.store_with 4) 3)
    as [Hcatch _].
  - reflexivity.
  - reflexivity.
  - split; [reflexivity | cbn; discriminate].
  - reflexivity.
  - apply (Hcatch (VNumber 7)).
    + reflexivity.
    + intros l Hl. by apply elem_of_nil in Hl.
    + cbn. lia.
Defined.

(** Reducer 5 dispatches and lets the error through: the outer dispatch
    does not return, it throws the re-entrancy error, and no state is
    assigned. *)
Lemma rethrowing_reducer_aborts_outer_dispatch :
  ∃ w', dispatch Samples.sample_code 5 Samples.INCREMENT (Samples.store_with 5) =
          Some (Abrupt ReentrancyError, w') ∧
        currentState w' = currentState (Samples.store_with 5) ∧
        log w' = log (Samples.store_with 5) ++
                 [ReducerCalled true (VNumber 0) Samples.INCREMENT] ∧
        ¬ ∃ w2, dispatch Samples.sample_code 5 Samples.INCREMENT
                  (Samples.store_with 5) = Some (Normal Samples.INCREMENT, w2).
Proof.
  eexists. split; [vm_compute; reflexivity|]. repeat split.
  intros [w2 H]. vm_compute in H. discriminate H.
Qed.

End StateContainerSpec.

(** ** More about the store *)

Module StateContainerMore.
Import StateContainer StateContainerSpec.

(** *** [createStore] *)

(** An enhancer takes over: with a function as third argument, or as
    second argument when there is no third, [createStore] hands the call
    to it, and neither checks nor calls the reducer.  In the second case
    the preloaded state is [undefined]. *)
Theorem createStore_delegates_to_enhancer code fuel (reducer s : JsValue) (e : FunRef) :
  createStore code fuel reducer s (VFunction e) =
    Some (Normal (Enhanced e reducer s)) ∧
  createStore code fuel reducer (VFunction e) VUndefined =
    Some (Normal (Enhanced e reducer VUndefined)).
Proof.
  split; unfold createStore; cbn; [|reflexivity].
  rewrite andb_false_r. reflexivity.
Qed.

(** A third argument that is neither [undefined] nor a function is
    refused, whatever the reducer; without an enhancer, a reducer that is
    not a function is refused.  Nothing is run in either case. *)
Theorem createStore_checks_its_arguments code fuel (reducer s enhancer : JsValue) :
  (typeof enhancer ≠ "undefined" → typeof enhancer ≠ "function" →
     createStore code fuel reducer s enhancer = Some (Abrupt (Error msg_enhancer))) ∧
  (typeof reducer ≠ "function" → typeof s ≠ "function" →
     createStore code fuel reducer s VUndefined = Some (Abrupt (Error msg_reducer))).
Proof.
  split.
  - intros Hu Hf. unfold createStore.
    apply String.eqb_neq in Hu. rewrite Hu, andb_false_r.
    destruct enhancer; cbn in *; try reflexivity; try done.
  - intros Hr Hs. unfold createStore.
    apply String.eqb_neq in Hs. rewrite Hs.
    destruct reducer; cbn in *; try reflexivity; try done.
Qed.

Lemma createStore_checks_its_arguments_witness :
  createStore Samples.sample_code 0 (VFunction 0) VUndefined (VNumber 3) =
    Some (Abrupt (Error msg_enhancer)) ∧
  createStore Samples.sample_code 0 (VString "reducer") VNull VUndefined =
    Some (Abrupt (Error msg_reducer)).
Proof.
  split.
  - apply (proj1 (createStore_checks_its_arguments Samples.sample_code 0
                    (VFunction 0) VUndefined (VNumber 3))); cbn; discriminate.
  - apply (proj2 (createStore_checks_its_arguments Samples.sample_code 0
                    (VString "reducer") VNull VUndefined)); cbn; discriminate.
Defined.

(** A dispatch that returns has called the reducer, which returned. *)
Lemma dispatch_Normal_inv code fuel a w v w' :
  dispatch code fuel a w = Some (Normal v, w') →
  v = a ∧ dispatch_guard a w = None ∧
  ∃ n s w1, fuel = S n ∧
    call_reducer code (exec code n) a (set_isDispatching true w) =
      Some (Normal s, w1).
Proof.
  intros H. destruct (dispatch_guard a w) as [e|] eqn:Hg.
  { by rewrite (dispatch_rejected _ _ _ _ _ Hg) in H. }
  destruct fuel as [|n]; [cbn in H; by rewrite Hg in H|].
  rewrite dispatch_S, Hg in H.
  destruct (call_reducer code (exec code n) a (set_isDispatching true w))
    as [[[s|e] w1]|] eqn:Hc; try done.
  destruct (notify code n _ _ _ _) as [[[?|?] ?]|]; try done.
  injection H as <- <-. split; [done|]. split; [done|]. by exists n, s, w1.
Qed.

Lemma createStore_plain code fuel (r : FunRef) (s0 : JsValue) :
  typeof s0 ≠ "function" →
  createStore code fuel (VFunction r) s0 VUndefined =
  match dispatch code fuel INIT (initialStore (VFunction r) s0) with
  | None => None
  | Some (Abrupt e, _) => Some (Abrupt e)
  | Some (Normal _, w) => Some (Normal (StoreOf w))
  end.
Proof.
  intros H. unfold createStore. apply String.eqb_neq in H. rewrite H. reflexivity.
Qed.

(** [createStore] calls the reducer on the preloaded state and the INIT
    action before it returns: a reducer that throws there makes
    [createStore] throw the same error, and a store that is returned is
    well formed, idle, and has that reducer call first in its history,
    followed by the assignment of a state. *)
Theorem createStore_calls_reducer_on_INIT code n (r : FunRef) (s0 : JsValue) :
  typeof s0 ≠ "function" →
  (∀ e w1,
     call_reducer code (exec code n) INIT
       (set_isDispatching true (initialStore (VFunction r) s0)) =
       Some (Abrupt e, w1) →
     createStore code (S n) (VFunction r) s0 VUndefined = Some (Abrupt e)) ∧
  (∀ w, createStore code (S n) (VFunction r) s0 VUndefined =
          Some (Normal (StoreOf w)) →
     wf w ∧ isDispatching w = false ∧
     ∃ s evs, log w = ReducerCalled true s0 INIT :: StateAssigned s :: evs ∧
              currentState w = assigned evs s).
Proof.
  intros Hs0. split.
  - intros e w1 Hc. rewrite createStore_plain, dispatch_S by done.
    rewrite (proj2 (dispatch_guard_None INIT _)) by (repeat split; cbn; done).
    by rewrite Hc.
  - intros w H. destruct (createStore_wf _ _ _ _ _ _ H) as [Hwf Hidle].
    split; [done|]. split; [done|].
    rewrite createStore_plain in H by done.
    destruct (dispatch code (S n) INIT (initialStore (VFunction r) s0))
      as [[[v|e] w']|] eqn:Hd; try done.
    injection H as ->.
    destruct (dispatch_Normal_inv _ _ _ _ _ _ Hd) as (_ & Hg & m & s & w1 & Hm & Hc).
    injection Hm as <-.
    destruct (call_reducer_run _ _ _ _ _ _ Hc) as (_ & _ & _ & _ & _ & HL).
    destruct (dispatch_returned code n INIT _ s w1 _ _
                (initialStore_wf _ _) Hg Hc Hd) as (evs & k & L & St & _).
    exists s, evs. split; [|done].
    rewrite L, (HL s eq_refl). reflexivity.
Qed.

Lemma createStore_calls_reducer_on_INIT_witness :
  ∃ w, createStore Samples.sample_code 3 (VFunction 0) (VNumber 41) VUndefined =
         Some (Normal (StoreOf w)) ∧
       log w = [ReducerCalled true (VNumber 41) INIT; StateAssigned (VNumber 42)].
Proof.
  eexists. split; [vm_compute; reflexivity|].
  destruct (createStore_calls_reducer_on_INIT Samples.sample_code 2 0 (VNumber 41))
    as [_ H]; [cbn; discriminate|].
  destruct (H _ eq_refl) as (_ & _ & s & evs & L & _).
  reflexivity.
Defined.

(** *** [subscribe] and [replaceReducer] *)

(** A listener or a next reducer that is not a function is refused, and
    the store is left exactly as it was: nothing is registered and the
    reducer stays. *)
Theorem non_functions_are_refused code fuel (x : JsValue) (w : Store) :
  typeof x ≠ "function" →
  subscribe x w = (Abrupt (Error msg_listener), w) ∧
  replaceReducer code fuel x w = Some (Abrupt (Error msg_nextReducer), w).
Proof.
  intros H. destruct x; try (split; reflexivity). exfalso. by apply H.
Qed.

Lemma non_functions_are_refused_witness :
  subscribe (VObject []) (Samples.store_with 0) =
    (Abrupt (Error msg_listener), Samples.store_with 0) ∧
  replaceReducer Samples.sample_code 5 (VObject []) (Samples.store_with 0) =
    Some (Abrupt (Error msg_nextReducer), Samples.store_with 0).
Proof.
  apply (non_functions_are_refused Samples.sample_code 5 (VObject [])
           (Samples.store_with 0)).
  cbn. discriminate.
Defined.

(** [replaceReducer] with a pure reducer, on an idle store whose
    listeners return: the reducer is replaced, the state becomes what the
    new reducer makes of the old state and the INIT action, and every
    registered listener is called once, in one pass. *)
Theorem replaceReducer_reseeds_and_notifies code r' g (w : Store) fuel :
  pure_reducer code r' g → isDispatching w = false →
  (∀ l, l ∈ registry w → quiet code l) →
  length (registry w) + 2 ≤ fuel →
  ∃ w', replaceReducer code fuel (VFunction r') w = Some (Normal VUndefined, w') ∧
    currentReducer w' = VFunction r' ∧
    currentState w' = g (currentState w) INIT ∧
    registry w' = registry w ∧
    log w' = log w ++
      ReducerCalled true (currentState w) INIT ::
      StateAssigned (g (currentState w) INIT) ::
      map (ListenerCalled (passes w) false) (registry w).
Proof.
  intros Hpure Hflag Hq Hfuel. unfold replaceReducer.
  rewrite (dispatch_quiet code r' g INIT (set_currentReducer (VFunction r') w) fuel);
    try done.
  eexists. split; [reflexivity|].
  destruct (quietly_dispatched_fields (g (currentState w) INIT) INIT (registry w)
              (set_currentReducer (VFunction r') w))
    as (Hr & Hs & _ & Hn & _ & Ha & _ & _ & Hl).
  repeat split; try done.
  apply (quietly_dispatched_registry _ _ _ (set_currentReducer (VFunction r') w)).
Qed.

Lemma replaceReducer_reseeds_and_notifies_witness :
  ∃ w', replaceReducer Samples.sample_code 4 (VFunction 0)
          (Samples.subscribed [1; 1] (Samples.store_with 6)) =
          Some (Normal VUndefined, w') ∧
        currentReducer w' = VFunction 0 ∧
        currentState w' = VNumber 1 ∧
        called_in 1 (log w') = [1; 1].
Proof.
  destruct (replaceReducer_reseeds_and_notifies Samples.sample_code 0 Samples.count
              (Samples.subscribed [1; 1] (Samples.store_with 6)) 4)
    as (w' & Hd & Hr & Hs & _ & Hl).
  - intros s a. reflexivity.
  - reflexivity.
  - intros l Hl. exists VUndefined.
    apply list_elem_of_In in Hl. cbn in Hl.
    destruct Hl as [<-|[<-|[]]]; reflexivity.
  - cbn. lia.
  - exists w'. split; [exact Hd|]. split; [exact Hr|]. split; [exact Hs|].
    rewrite Hl. reflexivity.
Defined.

(** [replaceReducer] called while a reducer runs throws the re-entrancy
    error of the dispatch it makes, but by then it has replaced the
    reducer; everything else in the store is as before. *)
Theorem replaceReducer_inside_reducer_still_replaces code fuel (r' : FunRef) (w : Store) :
  isDispatching w = true →
  replaceReducer code fuel (VFunction r') w =
    Some (Abrupt ReentrancyError, set_currentReducer (VFunction r') w).
Proof.
  intros Hflag. unfold replaceReducer.
  rewrite (dispatch_rejected code fuel INIT _ ReentrancyError); [reflexivity|].
  apply dispatch_guard_dispatching; [apply valid_INIT | exact Hflag].
Qed.

Lemma replaceReducer_inside_reducer_still_replaces_witness :
  replaceReducer Samples.sample_code 5 (VFunction 4)
    (set_isDispatching true (Samples.store_with 0)) =
  Some (Abrupt ReentrancyError,
        set_currentReducer (VFunction 4)
          (set_isDispatching true (Samples.store_with 0))).
Proof.
  apply (replaceReducer_inside_reducer_still_replaces Samples.sample_code 5 4
           (set_isDispatching true (Samples.store_with 0))).
  reflexivity.
Defined.

(** *** Subscribing and unsubscribing *)

Lemma delete_last_snoc (xs : list FunRef) x :
  delete (length xs) (xs ++ [x]) = xs.
Proof. induction xs as [|y xs IH]; [reflexivity|]. cbn. f_equal. exact IH. Qed.

(** Subscribing a listener and calling the removal closure at once brings
    the registered listeners back, up to their order: the closure removes
    the first occurrence of the listener, which is the new one only when
    the listener was not registered before.  The array of a pass in
    flight is the same throughout. *)
Theorem subscribe_then_unsubscribe (l : FunRef) (w : Store) :
  wf w →
  let h := length (unsubscribers w) in
  let w1 := (subscribe (VFunction l) w).2 in
  (subscribe (VFunction l) w).1 = Normal h ∧
  registry (unsubscribe h w1) ≡ₚ registry w ∧
  (l ∉ registry w → registry (unsubscribe h w1) = registry w) ∧
  snapshot (unsubscribe h w1) = snapshot w.
Proof.
  intros Hwf h w1.
  assert (Hwf1 : wf w1) by exact (ev_wf _ _ _ (subscribe_evolves 0 (VFunction l) w) Hwf).
  assert (Hreg1 : registry w1 = registry w ++ [l]) by (apply subscribe_registry, Hwf).
  assert (Hh : unsubscribers w1 !! h = Some {| listener := l; isSubscribed := true |}).
  { unfold w1, h. rewrite subscribe_function. simpl_store. by apply list_lookup_middle. }
  destruct (unsubscribe_registry h _ w1 Hwf1 Hh eq_refl)
    as (i & Hi & Hpre & _ & Hdel & _ & _ & Hsnap).
  cbn [listener] in *. rewrite Hreg1 in *.
  split; [unfold h; by rewrite subscribe_function|]. split; [|split].
  - rewrite Hdel.
    apply (Permutation_cons_inv (a := l)).
    rewrite <- (delete_Permutation _ _ _ Hi).
    by rewrite Permutation_app_comm.
  - intros Hnot. rewrite Hdel.
    destruct (decide (i < length (registry w))) as [Hlt|Hge].
    + exfalso. apply Hnot. rewrite lookup_app_l in Hi by done.
      by eapply list_elem_of_lookup_2.
    + apply lookup_lt_Some in Hi. rewrite length_app in Hi. cbn in Hi.
      replace i with (length (registry w)) by lia. apply delete_last_snoc.
  - rewrite Hsnap. unfold w1. rewrite subscribe_function. cbn [snd]. unfold snapshot.
    erewrite (array_at_write _ (ensureCanMutateNextListeners w)) by reflexivity.
    simpl_store. destruct (ensure_fields w) as (Hcur & _).
    rewrite decide_False.
    + rewrite Hcur. apply ensure_old, Hwf.
    + intros [Heq _]. revert Heq. apply ensure_split, Hwf.
Qed.

(** Listener 1 is registered before listener 2; subscribing 1 again and
    unsubscribing it leaves 2 before 1. *)
Lemma subscribe_then_unsubscribe_witness :
  registry (Samples.subscribed [1; 2] (Samples.store_with 0)) = [1; 2] ∧
  registry (unsubscribe 2
              (subscribe (VFunction 1)
                 (Samples.subscribed [1; 2] (Samples.store_with 0))).2) = [2; 1] ∧
  registry (unsubscribe 2
              (subscribe (VFunction 1)
                 (Samples.subscribed [1; 2] (Samples.store_with 0))).2) ≡ₚ
  registry (Samples.subscribed [1; 2] (Samples.store_with 0)).
Proof.
  split; [reflexivity|]. split; [reflexivity|].
  apply (subscribe_then_unsubscribe 1 (Samples.subscribed [1; 2] (Samples.store_with 0))).
  apply subscribed_wf, store_with_wf.
Defined.

Lemma filter_delete_other (l : FunRef) (xs : list FunRef) i :
  xs !! i = Some l →
  filter (λ x, x ≠ l) (delete i xs) = filter (λ x, x ≠ l) xs.
Proof.
  revert i. induction xs as [|y xs IH]; intros [|i] Hi; simplify_eq/=.
  - rewrite filter_cons, decide_False; [done|]. by intros ?.
  - rewrite !filter_cons. rewrite (IH i Hi). reflexivity.
Qed.

(** The first call of a removal closure takes one element out of the
    [nextListeners] array and leaves every other listener where it was,
    in the same order. *)
Theorem unsubscribe_keeps_the_others h u (w : Store) :
  wf w → unsubscribers w !! h = Some u → isSubscribed u = true →
  length (registry (unsubscribe h w)) + 1 = length (registry w) ∧
  filter (λ x, x ≠ listener u) (registry (unsubscribe h w)) =
  filter (λ x, x ≠ listener u) (registry w) ∧
  (0 ≤ indexOf (listener u) (registry w))%Z.
Proof.
  intros Hwf Hh Hs.
  destruct (unsubscribe_registry h u w Hwf Hh Hs)
    as (i & Hi & _ & Hidx & Hdel & _).
  rewrite Hdel, Hidx. split; [|split; [by apply filter_delete_other | lia]].
  rewrite length_delete by (by rewrite Hi). apply lookup_lt_Some in Hi. lia.
Qed.

Lemma unsubscribe_keeps_the_others_witness :
  filter (λ x, x ≠ 2)
    (registry (unsubscribe 1 (Samples.subscribed [1; 2; 3] (Samples.store_with 0)))) =
  [1; 3].
Proof.
  destruct (unsubscribe_keeps_the_others 1 {| listener := 2; isSubscribed := true |}
              (Samples.subscribed [1; 2; 3] (Samples.store_with 0)))
    as (_ & H & _).
  - apply subscribed_wf, store_with_wf.
  - reflexivity.
  - reflexivity.
  - etransitivity; [exact H | reflexivity].
Defined.

(** *** Copy on write *)

(** [ensureCanMutateNextListeners] leaves [nextListeners] distinct from
    [currentListeners] with the same contents, does not touch the
    [currentListeners] array, and does nothing when called again. *)
Theorem ensureCanMutateNextListeners_splits_once (w : Store) :
  currentListeners w < length (arrays w) →
  nextListeners (ensureCanMutateNextListeners w) ≠
    currentListeners (ensureCanMutateNextListeners w) ∧
  registry (ensureCanMutateNextListeners w) = registry w ∧
  snapshot (ensureCanMutateNextListeners w) = snapshot w ∧
  ensureCanMutateNextListeners (ensureCanMutateNextListeners w) =
    ensureCanMutateNextListeners w.
Proof.
  intros Hc. pose proof (ensure_split w Hc) as Hne.
  split; [done|]. split; [apply ensure_registry|]. split.
  - unfold snapshot. destruct (ensure_fields w) as (-> & _). by apply ensure_old.
  - destruct (ensure_cases (ensureCanMutateNextListeners w)) as [[_ ->]|[Heq _]]; done.
Qed.

Lemma ensureCanMutateNextListeners_splits_once_witness :
  nextListeners (ensureCanMutateNextListeners (Samples.store_with 0)) ≠
    currentListeners (ensureCanMutateNextListeners (Samples.store_with 0)) ∧
  ensureCanMutateNextListeners (ensureCanMutateNextListeners (Samples.store_with 0)) =
    ensureCanMutateNextListeners (Samples.store_with 0).
Proof.
  destruct (ensureCanMutateNextListeners_splits_once (Samples.store_with 0))
    as (H1 & _ & _ & H2); [cbn; lia|].
  split; [exact H1 | exact H2].
Defined.

Lemma subscribe_arrays l w :
  wf w →
  let w' := (subscribe (VFunction l) w).2 in
  nextListeners w' ≠ currentListeners w' ∧
  currentListeners w' = currentListeners w ∧
  snapshot w' = snapshot w ∧
  length (arrays w') =
    length (arrays w) +
    (if decide (nextListeners w = currentListeners w) then 1 else 0).
Proof.
  intros [H1 H2 H3]. rewrite subscribe_function. cbn [snd].
  destruct (ensure_fields w) as (Hcur & _).
  split; [simpl_store; by apply ensure_split|].
  split; [simpl_store; done|]. split.
  - unfold snapshot.
    erewrite (array_at_write _ (ensureCanMutateNextListeners w)) by reflexivity.
    simpl_store. rewrite decide_False.
    + rewrite Hcur. by apply ensure_old.
    + intros [Heq _]. revert Heq. by apply ensure_split.
  - simpl_store. rewrite length_insert.
    destruct (ensure_cases w) as [[Hne ->] | (Heq & _ & -> & _)].
    + rewrite decide_False by done. lia.
    + rewrite decide_True by done. rewrite length_app. cbn. lia.
Qed.

(** However many listeners are subscribed in a row, the listener array is
    copied at most once, and not at all when [nextListeners] is already a
    copy; the array of the pass in flight keeps its contents. *)
Theorem subscribing_copies_at_most_once (l : FunRef) (n : nat) (w : Store) :
  wf w →
  length (arrays (subscribe_times n (VFunction l) w)) ≤ S (length (arrays w)) ∧
  (nextListeners w ≠ currentListeners w →
     length (arrays (subscribe_times n (VFunction l) w)) = length (arrays w)) ∧
  currentListeners (subscribe_times n (VFunction l) w) = currentListeners w ∧
  snapshot (subscribe_times n (VFunction l) w) = snapshot w.
Proof.
  revert w. induction n as [|n IH]; intros w Hwf; cbn [subscribe_times].
  - split; [lia|]. done.
  - destruct (subscribe_arrays l w Hwf) as (Hne & Hc & Hs & Hlen).
    destruct (IH (subscribe (VFunction l) w).2) as (_ & Heq & Hc' & Hs').
    { exact (ev_wf _ _ _ (subscribe_evolves 0 (VFunction l) w) Hwf). }
    specialize (Heq Hne). rewrite Heq, Hc', Hs', Hlen.
    repeat split; try done.
    + destruct (decide _); lia.
    + intros Hne0. rewrite decide_False by done. lia.
Qed.

Lemma subscribing_copies_at_most_once_witness :
  length (arrays (subscribe_times 5 (VFunction 1) (Samples.store_with 0))) ≤ 2 ∧
  snapshot (subscribe_times 5 (VFunction 1) (Samples.store_with 0)) = [].
Proof.
  destruct (subscribing_copies_at_most_once 1 5 (Samples.store_with 0))
    as (H1 & _ & _ & H2); [apply store_with_wf|].
  split; [exact H1 | exact H2].
Defined.

(** *** What every run keeps *)

(** Stores stay well formed: [createStore] returns a well-formed store,
    and [subscribe], the removal closures, [dispatch], [replaceReducer]
    and any callback body keep it so.  Hence the listener of a removal
    closure that has not been called is always found in the
    [nextListeners] array. *)
Theorem stores_stay_well_formed code fuel :
  (∀ reducer s enhancer w,
     createStore code fuel reducer s enhancer = Some (Normal (StoreOf w)) → wf w) ∧
  (∀ l w, wf w → wf (subscribe l w).2) ∧
  (∀ h w, wf w → wf (unsubscribe h w)) ∧
  (∀ p w o w', wf w → exec code fuel p w = Some (o, w') → wf w') ∧
  (∀ a w o w', wf w → dispatch code fuel a w = Some (o, w') → wf w') ∧
  (∀ r w o w', wf w → replaceReducer code fuel r w = Some (o, w') → wf w') ∧
  (∀ h u w, wf w → unsubscribers w !! h = Some u → isSubscribed u = true →
     listener u ∈ registry w).
Proof.
  refine (conj _ (conj _ (conj _ (conj _ (conj _ (conj _ _)))))).
  - intros reducer s enhancer w H. by apply createStore_wf in H as [? _].
  - intros l w Hwf. exact (ev_wf _ _ _ (subscribe_evolves 0 l w) Hwf).
  - intros h w Hwf. exact (ev_wf _ _ _ (unsubscribe_evolves 0 h w) Hwf).
  - intros p w o w' Hwf H.
    apply (proj1 (run_ext code fuel)) in H as (E & _). exact (ev_wf _ _ _ E Hwf).
  - intros a w o w' Hwf H.
    apply (proj1 (proj2 (run_ext code fuel))) in H as (E & _). exact (ev_wf _ _ _ E Hwf).
  - intros r w o w' Hwf H. unfold replaceReducer in H.
    destruct r; try (by injection H as <- <-).
    destruct (dispatch code fuel INIT _) as [[o1 w1]|] eqn:Hd; [|done].
    apply (proj1 (proj2 (run_ext code fuel))) in Hd as (E & _).
    assert (w' = w1) as -> by (destruct o1; congruence).
    apply (ev_wf _ _ _ E).
    destruct (set_currentReducer_ext 0 (VFunction f) w) as (E0 & _).
    exact (ev_wf _ _ _ E0 Hwf).
  - intros h u w Hwf Hh Hs. apply occurrences_pos.
    rewrite (wf_live _ Hwf). by eapply live_pos.
Qed.

Lemma stores_stay_well_formed_witness :
  ∃ w', dispatch Samples.sample_code 6 Samples.INCREMENT
          (Samples.subscribed [1; 2; 1] (Samples.store_with 0)) =
          Some (Normal Samples.INCREMENT, w') ∧ wf w'.
Proof.
  eexists. split; [vm_compute; reflexivity|].
  destruct (stores_stay_well_formed Samples.sample_code 6)
    as (_ & _ & _ & _ & H & _).
  eapply (H Samples.INCREMENT (Samples.subscribed [1; 2; 1] (Samples.store_with 0))).
  - apply subscribed_wf, store_with_wf.
  - vm_compute. reflexivity.
Defined.

(** A dispatch that returns, returns the action it was given; it returns
    only for a plain object with a defined [type], on a store in which no
    reducer is running, and it has started a pass. *)
Theorem dispatch_returns_its_argument code fuel (a v : JsValue) (w w' : Store) :
  dispatch code fuel a w = Some (Normal v, w') →
  v = a ∧ valid_action a ∧ isDispatching w = false ∧
  isDispatching w' = false ∧ passes w < passes w'.
Proof.
  intros H. destruct (dispatch_Normal_inv _ _ _ _ _ _ H)
    as (-> & Hg & n & s & w1 & -> & Hc).
  pose proof Hg as Hg'. apply dispatch_guard_None in Hg' as (Hp & Ht & Hflag).
  pose proof (proj1 (proj2 (run_ext code (S n))) _ _ _ _ H) as (_ & F & _).
  repeat split; try done; [congruence|].
  destruct (call_reducer_run _ _ _ _ _ _ Hc) as (_ & _ & P1 & _).
  rewrite dispatch_S, Hg, Hc in H.
  destruct (notify code n _ _ _ _) as [[o2 w4]|] eqn:Hn; [|done].
  apply (proj2 (proj2 (run_ext code n))) in Hn as (E & _);
    [|reflexivity|cbn; lia].
  assert (w' = w4) as -> by (destruct o2; congruence).
  pose proof (ev_passes _ _ _ E) as HP. cbn in HP. lia.
Qed.

Lemma dispatch_returns_its_argument_witness :
  valid_action Samples.INCREMENT ∧
  isDispatching (Samples.store_with 0) = false.
Proof.
  destruct (dispatch_returns_its_argument Samples.sample_code 3
              Samples.INCREMENT Samples.INCREMENT (Samples.store_with 0)
              (quietly_dispatched (VNumber 1) Samples.INCREMENT []
                 (Samples.store_with 0)))
    as (_ & Hv & Hi & _); [vm_compute; reflexivity|].
  split; [exact Hv | exact Hi].
Defined.

(** The state is what the reducers returned: in any run of a callback
    body the state at the end is the last one assigned during the run, or
    the state at the start when none was; nothing a running reducer calls
    changes the state, and neither do [subscribe] or a removal closure. *)
Theorem state_changes_only_by_assignment code fuel :
  (∀ p w o w', exec code fuel p w = Some (o, w') →
     ∃ evs, log w' = log w ++ evs ∧
       currentState w' = assigned evs (currentState w) ∧
       (isDispatching w = true → evs = [] ∧ currentState w' = currentState w)) ∧
  (∀ l w, currentState (subscribe l w).2 = currentState w) ∧
  (∀ h w, currentState (unsubscribe h w) = currentState w).
Proof.
  split; [|split].
  - intros p w o w' H.
    apply (proj1 (run_ext code fuel)) in H as ([_ _ _ _ (evs & L & _ & St) _] & _ & Q).
    exists evs. split; [done|]. split; [done|].
    intros Hd. destruct (Q Hd) as [HL _]. rewrite HL in L.
    rewrite <- (app_nil_r (log w)) in L at 1. apply app_inv_head in L.
    subst evs. done.
  - intros l w.
    destruct (subscribe_evolves 0 l w) as [_ _ _ _ (evs & L & _ & St) _].
    assert (evs = []) as ->; [|done].
    destruct l; try (cbn in L; rewrite <- (app_nil_r (log w)) in L at 1;
                     by apply app_inv_head in L).
    destruct (subscribe_fields f w) as (_ & _ & _ & _ & HL & _).
    rewrite HL in L. rewrite <- (app_nil_r (log w)) in L at 1.
    by apply app_inv_head in L.
  - intros h w.
    destruct (unsubscribe_ext 0 h w) as ([_ _ _ _ (evs & L & _ & St) _] & _ & _).
    destruct (unsubscribers w !! h) as [u|] eqn:Hh;
      [|by rewrite unsubscribe_again by (intros u; congruence)].
    destruct (isSubscribed u) eqn:Hs;
      [|by rewrite unsubscribe_again by (intros u'; congruence)].
    rewrite (unsubscribe_first h u w Hh Hs). simpl_store.
    by destruct (ensure_fields w) as (_ & _ & _ & ? & _).
Qed.

(** Reducer 4 tries to dispatch while it runs: the state it sees stays
    the same until it returns. *)
Lemma state_changes_only_by_assignment_witness :
  ∃ o w', exec Samples.sample_code 4
            (Dispatch Samples.INCREMENT (λ _, Return VUndefined))
            (set_isDispatching true (Samples.store_with 0)) = Some (o, w') ∧
          currentState w' = VNumber 0.
Proof.
  exists (Normal VUndefined), (set_isDispatching true (Samples.store_with 0)).
  split; [vm_compute; reflexivity|].
  destruct (state_changes_only_by_assignment Samples.sample_code 4) as (H & _).
  destruct (H (Dispatch Samples.INCREMENT (λ _, Return VUndefined))
              (set_isDispatching true (Samples.store_with 0))
              (Normal VUndefined)
              (set_isDispatching true (Samples.store_with 0)))
    as (evs & _ & _ & Hq); [vm_compute; reflexivity|].
  exact (proj2 (Hq eq_refl)).
Defined.

End StateContainerMore.

(** ** The observable adapter *)

Module ObservableSpec.
Import StateContainer StateContainerSpec Observable.

(** An observer that is not an object (by [typeof]) is refused with a
    type error before anything runs.  [null] is an object by [typeof]: it
    passes that check, so that [observeState] runs, and the read of
    [observer.next] in it throws another type error, which is what the
    call throws.  In both cases the store is untouched and nothing is
    subscribed. *)
Theorem observable_subscribe_checks_observer code (o : FunRef)
    (observer : JsValue) (w : Store) :
  (typeof observer ≠ "object" →
     ∀ fuel, observable_subscribe code fuel o observer w =
             Some (Abrupt (TypeError msg_observer), w)) ∧
  (∀ fuel,
     typeof VNull = "object" ∧
     observable_subscribe code fuel o VNull w =
       match exec code fuel (observeState code VNull) w with
       | None => None
       | Some (Abrupt e, w1) => Some (Abrupt e, w1)
       | Some (Normal _, w1) => Some (subscribe (VFunction o) w1)
       end ∧
     exec code (S fuel) (observeState code VNull) w =
       Some (Abrupt (TypeError msg_next_of_null), w) ∧
     observable_subscribe code (S fuel) o VNull w =
       Some (Abrupt (TypeError msg_next_of_null), w) ∧
     TypeError msg_next_of_null ≠ TypeError msg_observer).
Proof.
  split.
  - intros H fuel. unfold observable_subscribe.
    apply String.eqb_neq in H. by rewrite H.
  - intros fuel. repeat split. discriminate.
Qed.

Lemma observable_subscribe_checks_observer_witness :
  observable_subscribe Samples.sample_code 3 9 (VFunction 1)
    (Samples.store_with 0) =
  Some (Abrupt (TypeError msg_observer), Samples.store_with 0).
Proof.
  apply (proj1 (observable_subscribe_checks_observer Samples.sample_code 9
                  (VFunction 1) (Samples.store_with 0))).
  cbn. discriminate.
Defined.

(** An observer object without a [next] (or with a false one) is
    subscribed all the same: its listener is registered, and it returns
    at once every time it is called. *)
Theorem observer_without_next_is_subscribed code (o : FunRef)
    (observer : JsValue) (w : Store) :
  typeof observer = "object" → observer ≠ VNull →
  truthy (get observer "next") = false →
  code o [] = observeState code observer →
  (∀ fuel, observable_subscribe code (S fuel) o observer w =
           Some (subscribe (VFunction o) w)) ∧
  quiet code o.
Proof.
  intros Ht Hn Hf Ho. split.
  - intros fuel. unfold observable_subscribe. rewrite Ht. cbn [String.eqb negb].
    replace (("object" =? "object")%string) with true by reflexivity.
    cbn [negb]. unfold observeState. rewrite Hf.
    destruct observer; try done.
  - exists VUndefined. rewrite Ho. unfold observeState. rewrite Hf.
    by destruct observer.
Qed.

Lemma observer_without_next_is_subscribed_witness :
  observable_subscribe Samples.sample_code 1 1 (VObject [])
    (Samples.store_with 0) =
  Some (subscribe (VFunction 1) (Samples.store_with 0)) ∧
  quiet Samples.sample_code 1.
Proof.
  destruct (observer_without_next_is_subscribed Samples.sample_code 1 (VObject [])
              (Samples.store_with 0)) as [H1 H2]; try reflexivity.
  - discriminate.
  - split; [exact (H1 0) | exact H2].
Defined.

Lemma registry_same (w' w : Store) :
  nextListeners w' = nextListeners w → arrays w' = arrays w →
  registry w' = registry w.
Proof. intros Hn Ha. unfold registry, array_at. by rewrite Hn, Ha. Qed.

(** One call of [observeState] for an observer whose [next] saves its
    argument. *)
Lemma observeState_saves code (observer : JsValue) (next : FunRef) m w :
  get observer "next" = VFunction next →
  (∀ s, code next [s] = Save s (Return VUndefined)) →
  exec code (S (S (S m))) (observeState code observer) w =
  Some (Normal VUndefined, set_outside (currentState w) w).
Proof.
  intros Hget Hnext. unfold observeState.
  destruct observer; try (cbn in Hget; discriminate); rewrite Hget; cbn [truthy];
    rewrite exec_S, Hnext; reflexivity.
Qed.

Lemma observed_fold_fields o p ls :
  ∀ w0,
    let w' := fold_left (after_listener o p) ls w0 in
    currentReducer w' = currentReducer w0 ∧ currentState w' = currentState w0 ∧
    nextListeners w' = nextListeners w0 ∧ arrays w' = arrays w0 ∧
    isDispatching w' = isDispatching w0 ∧
    log w' = log w0 ++ map (ListenerCalled p false) ls ∧
    outside w' = if bool_decide (o ∈ ls) then currentState w0 else outside w0.
Proof.
  induction ls as [|l ls IH]; intros w0; cbn [fold_left].
  - cbn. rewrite app_nil_r. repeat split.
  - destruct (IH (after_listener o p w0 l)) as (-> & -> & -> & -> & -> & -> & ->).
    unfold after_listener. cbv zeta.
    destruct (Nat.eqb_spec l o) as [->|Hne]; simpl_store.
    + repeat split; [by rewrite <- app_assoc|].
      rewrite (bool_decide_eq_true_2 (o ∈ o :: ls)) by left.
      by destruct (bool_decide (o ∈ ls)).
    + repeat split; [by rewrite <- app_assoc|].
      destruct (bool_decide (o ∈ ls)) eqn:Hin.
      * apply bool_decide_eq_true_1 in Hin.
        rewrite bool_decide_eq_true_2; [done | by right].
      * apply bool_decide_eq_false_1 in Hin.
        rewrite bool_decide_eq_false_2; [done|].
        rewrite elem_of_cons. intros [?|?]; congruence.
Qed.

Lemma notify_observed code (o next : FunRef) (observer : JsValue) ls pass fuel :
  get observer "next" = VFunction next →
  (∀ s, code next [s] = Save s (Return VUndefined)) →
  code o [] = observeState code observer →
  ∀ i w,
    (∀ l, l ∈ drop i (array_at ls w) → l ≠ o → quiet code l) →
    isDispatching w = false →
    length (drop i (array_at ls w)) + 3 ≤ fuel →
    notify code fuel ls i pass w =
    Some (Normal VUndefined,
          fold_left (after_listener o pass) (drop i (array_at ls w)) w).
Proof.
  intros Hget Hnext Ho. induction fuel as [|n IH]; intros i w Hq Hflag Hfuel; [lia|].
  rewrite notify_S. destruct (array_at ls w !! i) as [l|] eqn:Hi.
  - rewrite (drop_S _ _ _ Hi) in *. cbn in Hfuel. cbn [fold_left].
    unfold call_listener, after_listener. rewrite Hflag.
    destruct n as [|[|[|m]]]; try lia.
    destruct (Nat.eqb_spec l o) as [->|Hne].
    + rewrite Ho, (observeState_saves code observer next m _ Hget Hnext).
      rewrite IH; [done| |done|].
      * intros l' Hl'. apply Hq. by right.
      * change (array_at ls (set_outside _ _)) with (array_at ls w). lia.
    + destruct (Hq l) as [v Hv]; [left|done|]. rewrite Hv. cbn [exec].
      rewrite IH; [done| |done|].
      * intros l' Hl'. apply Hq. by right.
      * change (array_at ls (record _ w)) with (array_at ls w). lia.
  - rewrite drop_ge; [done|]. by apply lookup_ge_None.
Qed.

(** An observer whose [next] saves the state it is given: subscribing it
    saves the current state at once and registers its listener; from then
    on every dispatch saves the new state, and once its listener is no
    longer registered a dispatch leaves what was saved. *)
Theorem observer_sees_every_state code (o next : FunRef) (observer : JsValue) :
  typeof observer = "object" →
  get observer "next" = VFunction next →
  (∀ s, code next [s] = Save s (Return VUndefined)) →
  code o [] = observeState code observer →
  (∀ w m, observable_subscribe code (S (S (S m))) o observer w =
          Some (subscribe (VFunction o) (set_outside (currentState w) w))) ∧
  (∀ r g a w fuel,
     pure_reducer code r g → currentReducer w = VFunction r →
     valid_action a → isDispatching w = false →
     (∀ l, l ∈ registry w → l ≠ o → quiet code l) →
     length (registry w) + 4 ≤ fuel →
     ∃ w', dispatch code fuel a w = Some (Normal a, w') ∧
       currentState w' = g (currentState w) a ∧
       registry w' = registry w ∧
       outside w' = if bool_decide (o ∈ registry w)
                    then g (currentState w) a else outside w).
Proof.
  intros Ht Hget Hnext Ho. split.
  - intros w m. unfold observable_subscribe. rewrite Ht.
    replace (("object" =? "object")%string) with true by reflexivity.
    cbn [negb]. by rewrite (observeState_saves code observer next m w Hget Hnext).
  - intros r g a w fuel Hpure Hr [Hp Hty] Hflag Hq Hfuel.
    destruct fuel as [|[|m]]; try lia.
    rewrite dispatch_S.
    rewrite (proj2 (dispatch_guard_None a w)) by done.
    unfold call_reducer. simpl_store. rewrite Hr, Hpure. cbn [exec].
    set (w1 := record _ (set_isDispatching true w)).
    set (w3 := start_pass _).
    assert (Harr : array_at (nextListeners w1) w3 = registry w) by reflexivity.
    rewrite (notify_observed code o next observer _ _ (S m) Hget Hnext Ho 0 w3);
      rewrite ?Harr, ?drop_0; try done; [|cbn in Hfuel; lia].
    eexists. split; [reflexivity|].
    destruct (observed_fold_fields o (passes w1) (registry w) w3)
      as (_ & Hs & Hn & Ha & _ & _ & Hout).
    split; [by rewrite Hs|]. split.
    + by rewrite (registry_same _ w3 Hn Ha).
    + rewrite Hout. reflexivity.
Qed.

(** The recording observer on a counter: it has 0 after subscribing, 1
    after a dispatch, and still 1 after unsubscribing and one more
    dispatch, when the state is 2. *)
Lemma observer_sees_every_state_witness :
  ∃ w1 w2 w3,
    observable_subscribe recorder_code 3 9 recorder (Samples.store_with 0) =
      Some (Normal 0, w1) ∧ outside w1 = VNumber 0 ∧
    dispatch recorder_code 5 Samples.INCREMENT w1 =
      Some (Normal Samples.INCREMENT, w2) ∧ outside w2 = VNumber 1 ∧
    dispatch recorder_code 5 Samples.INCREMENT (unsubscribe 0 w2) =
      Some (Normal Samples.INCREMENT, w3) ∧
    currentState w3 = VNumber 2 ∧ outside w3 = VNumber 1.
Proof.
  destruct (observer_sees_every_state recorder_code 9 8 recorder)
    as [Hsub Hdisp]; try reflexivity.
  eexists. eexists. eexists.
  split; [rewrite Hsub; reflexivity|]. split; [reflexivity|].
  split; [vm_compute; reflexivity|]. split; [reflexivity|].
  split; [vm_compute; reflexivity|]. split; reflexivity.
Defined.

End ObservableSpec.

(** ** More about [compose] *)

Module ComposerMore.
Import Composer ComposerSpec.

Section Facts.

Context {V S : Type} (undefined : V).

Lemma compose_chain (funcs : list (Fn V S)) (args : list V) (s : S) :
  compose undefined funcs args s = right_to_left undefined funcs args s.
Proof.
  destruct funcs as [|f [|g rest]]; try reflexivity.
  unfold compose. rewrite (reduce_step_chain undefined) by done. reflexivity.
Qed.

Lemma bind_congr {A B : Type} (m m' : Eff S A) (k : A → Eff S B) (s : S) :
  m s = m' s → bind m k s = bind m' k s.
Proof. intros H. unfold bind. by rewrite H. Qed.

Lemma right_to_left_app (fs gs : list (Fn V S)) :
  fs ≠ [] → gs ≠ [] →
  ∀ args s,
    right_to_left undefined (fs ++ gs) args s =
    bind (right_to_left undefined gs args)
      (λ x, right_to_left undefined fs [x]) s.
Proof.
  intros Hfs Hgs. induction fs as [|f fs IH]; [done|].
  intros args s. destruct fs as [|f' fs].
  - cbn [app]. destruct gs as [|g gs]; [done|]. reflexivity.
  - change (right_to_left undefined ((f :: f' :: fs) ++ gs) args s)
      with (bind (right_to_left undefined ((f' :: fs) ++ gs) args) (λ x, f [x]) s).
    rewrite (bind_congr _ (bind (right_to_left undefined gs args)
                             (λ x, right_to_left undefined (f' :: fs) [x])))
      by (by apply IH).
    by rewrite bind_assoc.
Qed.

(** Composing in two steps: for non-empty lists, [compose(...fs, ...gs)]
    is [compose(...gs)] followed by [compose(...fs)] on the value it
    returns.  When the right part throws, the left part is not run. *)
Theorem compose_splits (fs gs : list (Fn V S)) (args : list V) (s : S) :
  fs ≠ [] → gs ≠ [] →
  compose undefined (fs ++ gs) args s =
    bind (compose undefined gs args) (λ x, compose undefined fs [x]) s ∧
  (∀ e s1, compose undefined gs args s = (Abrupt e, s1) →
     compose undefined (fs ++ gs) args s = (Abrupt e, s1)).
Proof.
  intros Hfs Hgs.
  assert (H : compose undefined (fs ++ gs) args s =
              bind (compose undefined gs args) (λ x, compose undefined fs [x]) s).
  { rewrite compose_chain, right_to_left_app by done.
    unfold bind. rewrite compose_chain.
    destruct (right_to_left undefined gs args s) as [[v|e] s1]; [|reflexivity].
    by rewrite compose_chain. }
  split; [exact H|]. intros e s1 He. rewrite H. unfold bind. by rewrite He.
Qed.

(** [compose()] as one of the functions: on the left it changes nothing;
    on the right it passes on the first argument only, so it changes
    nothing for calls with one argument. *)
Theorem compose_with_identity (f : Fn V S) (args : list V) (x : V) (s : S) :
  compose undefined [compose undefined []; f] args s = f args s ∧
  compose undefined [f; compose undefined []] args s = f [hd undefined args] s ∧
  compose undefined [f; compose undefined []] [x] s = f [x] s.
Proof.
  repeat split. cbn. unfold step, bind, identity, ret.
  destruct (f args s) as [[v|e] s1]; reflexivity.
Qed.

End Facts.

(** On numbers: adding all arguments, then doubling, then adding one. *)
Lemma compose_splits_witness :
  compose 0 ([λ args, ret (hd 0 args + 1); λ args, ret (2 * hd 0 args)] ++
             [λ args, ret (foldr Nat.add 0 args)]) [1; 2; 3] tt =
  (Normal 13, tt).
Proof.
  destruct (compose_splits (S := unit) 0
              [λ args, ret (hd 0 args + 1); λ args, ret (2 * hd 0 args)]
              [λ args, ret (foldr Nat.add 0 args)] [1; 2; 3] tt) as [H _];
    [done | done |].
  etransitivity; [exact H | reflexivity].
Defined.

End ComposerMore.

(** ** More about [bindActionCreators] *)

Module ActionBinderMore.
Import ActionBinder ActionBinderSpec.

Section Facts.

Context {V S : Type}.

#[local] Abbreviation Value := (Value V S).

Lemma NoDup_filter_bool {A : Type} (f : A → bool) (l : list A) :
  NoDup l → NoDup (List.filter f l).
Proof.
  intros H. apply NoDup_ListNoDup, List.NoDup_filter. by apply NoDup_ListNoDup.
Qed.

Lemma set_own_Forall (P : string * Value → Prop) key v (props : list (string * Value)) :
  (∀ k, P (k, v)) → Forall P props → Forall P (set_own key v props).
Proof.
  intros Hv. induction props as [|[k x] props IH]; intros H.
  - cbn. constructor; [apply Hv|constructor].
  - apply Forall_cons in H as [Hx H]. cbn [set_own].
    destruct (String.eqb k key); constructor; auto.
Qed.

Lemma set_own_NoDup key v (props : list (string * Value)) :
  NoDup (Object_keys props) → NoDup (Object_keys (set_own key v props)).
Proof.
  intros Hnd. destruct (decide (key ∈ Object_keys props)) as [Hin|Hout].
  - by rewrite set_own_keys.
  - rewrite set_own_fresh by done. unfold Object_keys in *. rewrite map_app.
    apply NoDup_app. split; [done|]. split; [|apply NoDup_singleton].
    intros k Hk Hk'. apply list_elem_of_singleton in Hk'. by subst.
Qed.

Lemma set_own_length key v (props : list (string * Value)) :
  length (set_own key v props) ≤ Datatypes.S (length props).
Proof.
  induction props as [|[k x] props IH]; [cbn; lia|].
  cbn [set_own]. destruct (String.eqb k key); cbn in *; lia.
Qed.

(** A write changes the own properties by one write of an own property,
    or not at all. *)
Lemma assign_own key (wrapper : Fn V S) (obj obj' : Building V S) :
  assign key wrapper obj = Some obj' →
  own obj' = own obj ∨ own obj' = set_own key (Function wrapper) (own obj).
Proof.
  unfold assign. intros H.
  destruct (has_own key (own obj)); [injection H as <-; by right|].
  destruct (String.eqb key "__proto__"); [injection H as <-; by left|].
  destruct (prototype obj); [|injection H as <-; by right].
  destruct (existsb _ function_keys); [done|]. injection H as <-. by right.
Qed.

Lemma fold_bind_key_None props (d : Fn V S) keys :
  fold_left (bind_key props d) keys None = None.
Proof. by induction keys. Qed.

Lemma fold_bind_key_own props (d : Fn V S) keys :
  ∀ obj res,
    fold_left (bind_key props d) keys (Some obj) = Some res →
    Forall (λ kv, callable kv.2 = true) (own obj) →
    NoDup (Object_keys (own obj)) →
    Forall (λ kv, callable kv.2 = true) (own res) ∧
    NoDup (Object_keys (own res)) ∧
    length (own res) ≤ length (own obj) + length keys.
Proof.
  induction keys as [|key keys IH]; intros obj res H Hc Hnd.
  - cbn in H. injection H as <-. repeat split; [done|done|lia].
  - cbn [fold_left] in H. unfold bind_key at 2 in H.
    assert (Hskip : fold_left (bind_key props d) keys (Some obj) = Some res →
              Forall (λ kv, callable kv.2 = true) (own res) ∧
              NoDup (Object_keys (own res)) ∧
              length (own res) ≤ length (own obj) + length (key :: keys)).
    { intros H'. destruct (IH _ _ H' Hc Hnd) as (? & ? & ?).
      repeat split; [done|done|cbn; lia]. }
    destruct (lookup_key key props) eqn:Hl; try by apply Hskip.
    destruct (assign key (bindActionCreator f d) obj) as [obj1|] eqn:Ha;
      [|by rewrite fold_bind_key_None in H].
    destruct (assign_own _ _ _ _ Ha) as [Ho|Ho].
    + destruct (IH _ _ H) as (? & ? & ?); rewrite ?Ho; try done.
      repeat split; [done|done|]. rewrite Ho in *. cbn. lia.
    + destruct (IH _ _ H) as (? & ? & Hlen); rewrite ?Ho.
      * by apply set_own_Forall.
      * by apply set_own_NoDup.
      * repeat split; [done|done|]. rewrite Ho in Hlen.
        pose proof (set_own_length key (Function (bindActionCreator f d)) (own obj)).
        cbn. lia.
Qed.

(** The object returned for an object holds functions only, under
    distinct keys, and has at most as many keys as the source. *)
Theorem bound_object_holds_only_functions
    (props : list (string * Value)) (v : Value) (d : Fn V S) :
  bindActionCreators (Object props) d = Some (Normal v) →
  Forall (λ kv, callable kv.2 = true) (own_props v) ∧
  NoDup (Object_keys (own_props v)) ∧
  length (own_props v) ≤ length props.
Proof.
  change (bindActionCreators (Object props) d)
    with (match fold_left (bind_key props d) (Object_keys props)
                  (Some empty_object) with
          | Some b => Some (Normal (value_of b))
          | None => None
          end).
  destruct (fold_left _ _ _) as [res|] eqn:H; [|done].
  intros Hv. injection Hv as <-.
  destruct (fold_bind_key_own _ _ _ _ _ H) as (Hc & Hnd & Hlen).
  { constructor. }
  { constructor. }
  assert (Ho : own_props (value_of res) = own res).
  { unfold value_of. by destruct (prototype res). }
  rewrite Ho. repeat split; [done|done|].
  cbn in Hlen. unfold Object_keys in Hlen. by rewrite length_map in Hlen.
Qed.

Lemma filter_callable_bound_of (props : list (string * Value)) (d : Fn V S) keys :
  NoDup keys →
  List.filter
    (λ key, callable (lookup_key key (bound_of props d keys)))
    (Object_keys (bound_of props d keys)) =
  Object_keys (bound_of props d keys).
Proof.
  intros Hnd. apply List.forallb_filter_id, List.forallb_forall.
  intros key Hin. rewrite keys_bound_of in Hin.
  apply List.filter_In in Hin as [Hin Hc].
  destruct (lookup_key key props) eqn:Hl; try done.
  rewrite (lookup_bound_of props d keys key f); [done | by apply list_elem_of_In | done].
Qed.

(** Binding the result again, to a second dispatch function, keeps the
    keys and wraps each wrapper once more: calling the result calls the
    action creator, hands its action to the first dispatch function, and
    what that returns to the second.  The source has no own key
    [__proto__]. *)
Theorem binding_twice (props bound : list (string * Value)) (d d2 : Fn V S) :
  NoDup (Object_keys props) → "__proto__" ∉ Object_keys props →
  bindActionCreators (Object props) d = Some (Normal (Object bound)) →
  ∃ bound2,
    bindActionCreators (Object bound) d2 = Some (Normal (Object bound2)) ∧
    Object_keys bound2 = Object_keys bound ∧
    ∀ key f, lookup_key key props = Function f →
      lookup_key key bound2 =
        Function (bindActionCreator (bindActionCreator f d) d2) ∧
      ∀ args s,
        bindActionCreator (bindActionCreator f d) d2 args s =
        bind (f args) (λ action, bind (d [action]) (λ x, d2 [x])) s.
Proof.
  intros Hnd Hp H. rewrite bindActionCreators_object in H by done.
  injection H as <-.
  set (bound := bound_of props d (Object_keys props)).
  assert (Hnd2 : NoDup (Object_keys bound)).
  { unfold bound. rewrite keys_bound_of. by apply NoDup_filter_bool. }
  assert (Hp2 : "__proto__" ∉ Object_keys bound).
  { unfold bound. rewrite keys_bound_of. intros Hin.
    apply list_elem_of_In, filter_In in Hin as [Hin _].
    by apply list_elem_of_In in Hin. }
  exists (bound_of bound d2 (Object_keys bound)).
  split; [by apply bindActionCreators_object|]. split.
  - rewrite keys_bound_of. by apply filter_callable_bound_of.
  - intros key f Hf. split.
    + assert (Hb : lookup_key key bound = Function (bindActionCreator f d)).
      { apply lookup_bound_of; [|done]. apply lookup_key_defined. by rewrite Hf. }
      apply lookup_bound_of; [|done]. apply lookup_key_defined. by rewrite Hb.
    + intros args s. unfold bindActionCreator. apply ComposerSpec.bind_assoc.
Qed.

End Facts.

Lemma bound_object_holds_only_functions_witness :
  ∃ bound,
    bindActionCreators sample_map sample_dispatch = Some (Normal (Object bound)) ∧
    Forall (λ kv, callable kv.2 = true) bound ∧
    length bound ≤ 2.
Proof.
  exists [("a", Function (bindActionCreator sample_creator sample_dispatch))].
  split; [reflexivity|].
  destruct (bound_object_holds_only_functions
              [("a", Function sample_creator); ("b", Number 1%Z)]
              (Object [("a", Function (bindActionCreator sample_creator sample_dispatch))])
              sample_dispatch)
    as (H1 & _ & H2); [reflexivity|].
  split; [exact H1 | exact H2].
Defined.

Lemma binding_twice_witness :
  ∃ bound2,
    bindActionCreators
      (Object [("a", Function (bindActionCreator sample_creator sample_dispatch))])
      sample_dispatch = Some (Normal (Object bound2)) ∧
    Object_keys bound2 = ["a"].
Proof.
  destruct (binding_twice
              [("a", Function sample_creator); ("b", Number 1%Z)]
              [("a", Function (bindActionCreator sample_creator sample_dispatch))]
              sample_dispatch sample_dispatch)
    as (bound2 & H1 & H2 & _); [| |reflexivity|].
  - apply (bool_decide_unpack _). vm_compute. exact I.
  - apply (bool_decide_unpack _). vm_compute. exact I.
  - exists bound2. split; [exact H1|]. rewrite H2. reflexivity.
Defined.

End ActionBinderMore.
